(** * streamMessaging: the 8-byte message packet of PicoCxTest

    A shallow embedding of [streamMessaging.hpp]: the [messageTypes]
    enumeration, the packed [msgpacket] structure with its float/size_t
    union, and the four inline helpers [calcCheckSum], [createMessage]
    (two overloads), [checksumIsOk] and [magicByteOk].

    The helpers take the packet by reference or by pointer, so they are
    embedded as computations of a small state monad whose state is the
    packet they are handed.  Unsigned C integers are [Z] with the
    wrap-around of each conversion written out.  The target is the RP2040
    (ILP32, little-endian, IEEE-754 binary32 [float]), where [size_t] is
    four bytes wide; the source's [static_assert] on the packet size admits
    no wider one. *)

From Stdlib Require Import String ZArith List Bool Lia.
From Stdlib Require Import Floats.SpecFloat.
Import ListNotations.
Local Open Scope Z_scope.

Module streamMessaging.

(** ** Fixed-width unsigned integers *)

Definition to_uint8 (z : Z) : Z := z mod 2 ^ 8.
Definition to_uint16 (z : Z) : Z := z mod 2 ^ 16.
Definition to_uint32 (z : Z) : Z := z mod 2 ^ 32.

(** [constexpr uint8_t MAGIC_BYTE = 0b10101010;] *)
Definition MAGIC_BYTE : Z := 0xAA.

(** ** [enum messageTypes] *)

Inductive messageTypes : Set :=
  | WAVELEN0 | BANK0 | BANK1 | CTRL
  | CTRL0 | CTRL1 | CTRL2 | CTRL3 | CTRL4 | CTRL5 | DETUNE | OCTSPREAD
  | METAMOD3 | METAMOD4 | METAMOD5 | METAMOD6 | METAMOD7 | METAMOD8.

Definition messageTypes_eq_dec (a b : messageTypes) : {a = b} + {a <> b}.
Proof. decide equality. Defined.

(** The enumerator list of the declaration, in the order it is written. *)
Definition messageTypes_enumerators : list messageTypes :=
  [WAVELEN0; BANK0; BANK1; CTRL;
   CTRL0; CTRL1; CTRL2; CTRL3; CTRL4; CTRL5; DETUNE; OCTSPREAD;
   METAMOD3; METAMOD4; METAMOD5; METAMOD6; METAMOD7; METAMOD8].

(** No enumerator has an initialiser: the first one is 0 and each later one
    is its predecessor plus one, that is, its position in the list. *)
Fixpoint enumerator_value (k : messageTypes) (l : list messageTypes)
    (next : Z) : Z :=
  match l with
  | [] => next
  | k' :: l' =>
      if messageTypes_eq_dec k k' then next
      else enumerator_value k l' (next + 1)
  end.

Definition ordinal (k : messageTypes) : Z :=
  enumerator_value k messageTypes_enumerators 0.

(** ** IEEE-754 binary32, the representation of [float] *)

Definition prec32 : Z := 24.
Definition emax32 : Z := 128.

Definition float := spec_float.

Definition valid_float (x : float) : bool := valid_binary prec32 emax32 x.

Definition is_finite (x : float) : bool :=
  match x with
  | S754_zero _ | S754_finite _ _ _ => true
  | S754_infinity _ | S754_nan => false
  end.

Definition join_bits32 (s : bool) (biased_exp mant : Z) : Z :=
  Z.lor (Z.shiftl (if s then 1 else 0) 31)
        (Z.lor (Z.shiftl biased_exp 23) mant).

(** The 32-bit pattern of a float: sign, 8 exponent bits, 23 fraction bits. *)
Definition bits_of_float (x : float) : Z :=
  match x with
  | S754_zero s => join_bits32 s 0 0
  | S754_infinity s => join_bits32 s 255 0
  | S754_nan => join_bits32 false 255 (2 ^ 22)
  | S754_finite s m e =>
      if 2 ^ 23 <=? Zpos m
      then join_bits32 s (e + 150) (Zpos m - 2 ^ 23)
      else join_bits32 s 0 (Zpos m)
  end.

Definition float_of_bits (b : Z) : float :=
  let s := Z.testbit b 31 in
  let biased_exp := Z.land (Z.shiftr b 23) 0xFF in
  let mant := Z.land b 0x7FFFFF in
  if biased_exp =? 0 then
    match mant with
    | Zpos m => S754_finite s m (-149)
    | _ => S754_zero s
    end
  else if biased_exp =? 255 then
    if mant =? 0 then S754_infinity s else S754_nan
  else
    match mant + 2 ^ 23 with
    | Zpos m => S754_finite s m (biased_exp - 150)
    | _ => S754_nan
    end.

(** ** [struct __attribute__((packed)) msgpacket] *)

(** [value] is the storage shared by the two members of the union,
    [floatValue] and [uintValue]. *)
Record msgpacket : Set := mk_msgpacket {
  value : Z;
  msgType : Z;
  magicByte : Z;
  checksum : Z
}.

(** A packet object that has just been defined: the default member
    initialiser sets [magicByte]; the other members hold whatever the
    storage held ([v], [t], [c]). *)
Definition msgpacket_ctor (v t c : Z) : msgpacket :=
  mk_msgpacket v t MAGIC_BYTE c.

(** *** Layout *)

Inductive ctype : Set := float_t | size_t | uint8_t | uint16_t.

(** The width of [size_t] is the platform's; on the RP2040 it is 4. *)
Definition sizeof_size_t_rp2040 : Z := 4.

Definition sizeof_on (sizeof_size_t : Z) (t : ctype) : Z :=
  match t with
  | float_t => 4
  | size_t => sizeof_size_t
  | uint8_t => 1
  | uint16_t => 2
  end.

Inductive member : Set :=
  | Scalar (t : ctype)
  | Union (alternatives : list ctype).

(** A union is as large as its largest alternative. *)
Definition sizeof_member_on (sizeof_size_t : Z) (m : member) : Z :=
  match m with
  | Scalar t => sizeof_on sizeof_size_t t
  | Union ts =>
      fold_right (fun t acc => Z.max (sizeof_on sizeof_size_t t) acc) 0 ts
  end.

Definition msgpacket_members : list (string * member) :=
  [("value"%string, Union [float_t; size_t]);
   ("msgType"%string, Scalar uint8_t);
   ("magicByte"%string, Scalar uint8_t);
   ("checksum"%string, Scalar uint16_t)].

(** A packed structure places each member right after the previous one. *)
Fixpoint packed_layout_on (sizeof_size_t : Z) (ms : list (string * member))
    (offset : Z) : list (string * Z * Z) :=
  match ms with
  | [] => []
  | (name, m) :: ms' =>
      (name, offset, sizeof_member_on sizeof_size_t m)
        :: packed_layout_on sizeof_size_t ms'
             (offset + sizeof_member_on sizeof_size_t m)
  end.

Definition sizeof_packed_on (sizeof_size_t : Z)
    (ms : list (string * member)) : Z :=
  fold_right (fun nm acc => sizeof_member_on sizeof_size_t (snd nm) + acc) 0 ms.

(** [static_assert(sizeof(msgpacket) == 8, ...)] *)
Definition static_assert_msgpacket_size_on (sizeof_size_t : Z) : bool :=
  sizeof_packed_on sizeof_size_t msgpacket_members =? 8.

(** The same on the target. *)
Definition sizeof : ctype -> Z := sizeof_on sizeof_size_t_rp2040.
Definition sizeof_member : member -> Z :=
  sizeof_member_on sizeof_size_t_rp2040.
Definition packed_layout : list (string * member) -> Z -> list (string * Z * Z) :=
  packed_layout_on sizeof_size_t_rp2040.
Definition sizeof_msgpacket : Z :=
  sizeof_packed_on sizeof_size_t_rp2040 msgpacket_members.
Definition static_assert_msgpacket_size : bool :=
  static_assert_msgpacket_size_on sizeof_size_t_rp2040.

(** The bytes of an unsigned integer of [n] bytes, least significant first. *)
Fixpoint le_bytes (n : nat) (z : Z) : list Z :=
  match n with
  | O => []
  | S n' => to_uint8 z :: le_bytes n' (Z.shiftr z 8)
  end.

(** The object representation of a packet: its members' bytes in
    declaration order. *)
Definition object_representation (p : msgpacket) : list Z :=
  le_bytes (Z.to_nat (sizeof_member (Union [float_t; size_t]))) (value p)
    ++ le_bytes (Z.to_nat (sizeof uint8_t)) (msgType p)
    ++ le_bytes (Z.to_nat (sizeof uint8_t)) (magicByte p)
    ++ le_bytes (Z.to_nat (sizeof uint16_t)) (checksum p).

(** ** Computations over a packet passed by reference *)

Definition M (A : Type) : Type := msgpacket -> A * msgpacket.

Definition ret {A : Type} (a : A) : M A := fun msg => (a, msg).

Definition bind {A B : Type} (c : M A) (k : A -> M B) : M B :=
  fun msg => let (a, msg') := c msg in k a msg'.

Notation "x <- c ;; k" := (bind c (fun x => k))
  (at level 61, c at next level, right associativity).
Notation "c ;; k" := (bind c (fun _ => k))
  (at level 61, right associativity).

(** The result of a computation, and the packet it leaves behind. *)
Definition eval {A : Type} (c : M A) (msg : msgpacket) : A := fst (c msg).
Definition exec {A : Type} (c : M A) (msg : msgpacket) : msgpacket :=
  snd (c msg).

(** Member accesses. *)
Definition load_uintValue : M Z := fun msg => (value msg, msg).
Definition load_floatValue : M float :=
  fun msg => (float_of_bits (value msg), msg).
Definition load_msgType : M Z := fun msg => (msgType msg, msg).
Definition load_magicByte : M Z := fun msg => (magicByte msg, msg).
Definition load_checksum : M Z := fun msg => (checksum msg, msg).

Definition store_uintValue (v : Z) : M unit :=
  fun msg =>
    (tt, mk_msgpacket (to_uint32 v) (msgType msg) (magicByte msg)
           (checksum msg)).
Definition store_floatValue (x : float) : M unit :=
  fun msg =>
    (tt, mk_msgpacket (bits_of_float x) (msgType msg) (magicByte msg)
           (checksum msg)).
Definition store_msgType (t : Z) : M unit :=
  fun msg =>
    (tt, mk_msgpacket (value msg) (to_uint8 t) (magicByte msg)
           (checksum msg)).
Definition store_checksum (c : Z) : M unit :=
  fun msg =>
    (tt, mk_msgpacket (value msg) (msgType msg) (magicByte msg)
           (to_uint16 c)).

(** ** The helpers *)

(** [uint32_t v = msg.value.uintValue;
     msg.checksum = (uint16_t)(v ^ (v >> 16) ^ msg.msgType);] *)
Definition calcCheckSum : M unit :=
  u <- load_uintValue ;;
  let v := to_uint32 u in
  t <- load_msgType ;;
  store_checksum (to_uint16 (Z.lxor (Z.lxor v (Z.shiftr v 16)) t)).

(** [createMessage(msgpacket &msg, const float value, const messageTypes msgType)] *)
Definition createMessage_float (x : float) (k : messageTypes) : M unit :=
  store_floatValue x ;;
  store_msgType (ordinal k) ;;
  calcCheckSum.

(** [createMessage(msgpacket &msg, const size_t value, const messageTypes msgType)] *)
Definition createMessage_size_t (u : Z) (k : messageTypes) : M unit :=
  store_uintValue u ;;
  store_msgType (ordinal k) ;;
  calcCheckSum.

(** [uint32_t v = msg->value.uintValue;
     return msg->checksum == (uint16_t)(v ^ (v >> 16) ^ msg->msgType);] *)
Definition checksumIsOk : M bool :=
  u <- load_uintValue ;;
  let v := to_uint32 u in
  c <- load_checksum ;;
  t <- load_msgType ;;
  ret (c =? to_uint16 (Z.lxor (Z.lxor v (Z.shiftr v 16)) t)).

(** [return msg->magicByte == MAGIC_BYTE;] *)
Definition magicByteOk : M bool :=
  b <- load_magicByte ;;
  ret (b =? MAGIC_BYTE).

(** The 16-bit code both [calcCheckSum] and [checksumIsOk] compute from the
    value bits [v] and the kind byte [t]. *)
Definition fold16 (v t : Z) : Z :=
  to_uint16 (Z.lxor (Z.lxor (to_uint32 v) (Z.shiftr (to_uint32 v) 16)) t).

(** ** Damage to a stored packet *)

(** The value bits are XORed with [mask]; nothing else is touched. *)
Definition xor_value (mask : Z) (p : msgpacket) : msgpacket :=
  mk_msgpacket (Z.lxor (value p) mask) (msgType p) (magicByte p) (checksum p).

(** Bit [i] of the value field is flipped. *)
Definition flip_value_bit (i : Z) (p : msgpacket) : msgpacket :=
  xor_value (2 ^ i) p.

(** The same bit positions [m] are flipped in the high and the low half. *)
Definition two_half_mask (m : Z) : Z := Z.lor (Z.shiftl m 16) m.

(** The magic byte is overwritten with [b]. *)
Definition overwrite_magicByte (b : Z) (p : msgpacket) : msgpacket :=
  mk_msgpacket (value p) (msgType p) (to_uint8 b) (checksum p).

(** Every member holds a value of its C type. *)
Definition wf_msgpacket (p : msgpacket) : Prop :=
  0 <= value p < 2 ^ 32 /\ 0 <= msgType p < 2 ^ 8 /\
  0 <= magicByte p < 2 ^ 8 /\ 0 <= checksum p < 2 ^ 16.

(** The members of the packet and their widths in bits. *)
Inductive member_name : Set := m_value | m_msgType | m_magicByte | m_checksum.

Definition member_bits (f : member_name) : Z :=
  match f with
  | m_value => 32
  | m_msgType => 8
  | m_magicByte => 8
  | m_checksum => 16
  end.

(** Bit [j] of member [f] is flipped; the other members stay. *)
Definition flip_member_bit (f : member_name) (j : Z) (p : msgpacket)
    : msgpacket :=
  match f with
  | m_value =>
      mk_msgpacket (Z.lxor (value p) (2 ^ j)) (msgType p) (magicByte p)
        (checksum p)
  | m_msgType =>
      mk_msgpacket (value p) (Z.lxor (msgType p) (2 ^ j)) (magicByte p)
        (checksum p)
  | m_magicByte =>
      mk_msgpacket (value p) (msgType p) (Z.lxor (magicByte p) (2 ^ j))
        (checksum p)
  | m_checksum =>
      mk_msgpacket (value p) (msgType p) (magicByte p)
        (Z.lxor (checksum p) (2 ^ j))
  end.

(** ** Packets as received bytes *)

(** A byte as received. *)
Definition is_byte (b : Z) : Prop := 0 <= b < 2 ^ 8.

(** The unsigned integer whose bytes, least significant first, are [bs]. *)
Fixpoint le_combine (bs : list Z) : Z :=
  match bs with
  | [] => 0
  | b :: bs' => b + 2 ^ 8 * le_combine bs'
  end.

(** The packet that a [msgpacket *] pointing at the bytes [bs] denotes:
    each member is read from its place in the packed layout. *)
Definition msgpacket_of_bytes (bs : list Z) : msgpacket :=
  mk_msgpacket
    (le_combine (firstn 4 bs))
    (le_combine (firstn 1 (skipn 4 bs)))
    (le_combine (firstn 1 (skipn 5 bs)))
    (le_combine (firstn 2 (skipn 6 bs))).

(** Byte [n] of [bs] is XORed with [mask]. *)
Fixpoint xor_nth (n : nat) (mask : Z) (bs : list Z) : list Z :=
  match bs, n with
  | [], _ => []
  | b :: bs', O => Z.lxor b mask :: bs'
  | b :: bs', S n' => b :: xor_nth n' mask bs'
  end.

(** Bit [i] of the byte image is flipped: bit [i mod 8] of byte [i / 8]. *)
Definition flip_image_bit (i : Z) (bs : list Z) : list Z :=
  xor_nth (Z.to_nat (i / 8)) (2 ^ (i mod 8)) bs.

(** The member and the bit of it that bit [i] of the byte image belongs
    to, by the packed layout. *)
Definition member_of_image_bit (i : Z) : member_name * Z :=
  if i <? 32 then (m_value, i)
  else if i <? 40 then (m_msgType, i - 32)
  else if i <? 48 then (m_magicByte, i - 40)
  else (m_checksum, i - 48).

(** ** Sanity checks on concrete packets *)

(** 440.0f is 0x43DC0000. *)
Definition f440 : float := S754_finite false 14417920 (-15).

Example bits_of_f440 : bits_of_float f440 = 0x43DC0000.
Proof. reflexivity. Qed.

Example create_f440_detune :
  exec (createMessage_float f440 DETUNE) (msgpacket_ctor 0 0 0)
  = mk_msgpacket 0x43DC0000 10 170 0x43D6.
Proof. reflexivity. Qed.

Example ordinal_METAMOD8 : ordinal METAMOD8 = 17.
Proof. reflexivity. Qed.

(** 1.0f, -0.0f, the least subnormal and the greatest finite float. *)
Example bits_of_one :
  bits_of_float (S754_finite false 8388608 (-23)) = 0x3F800000.
Proof. reflexivity. Qed.

Example bits_of_minus_zero : bits_of_float (S754_zero true) = 0x80000000.
Proof. reflexivity. Qed.

Example bits_of_least_subnormal :
  bits_of_float (S754_finite false 1 (-149)) = 1.
Proof. reflexivity. Qed.

Example bits_of_greatest_finite :
  valid_float (S754_finite false 16777215 104) = true
  /\ bits_of_float (S754_finite false 16777215 104) = 0x7F7FFFFF.
Proof. split; reflexivity. Qed.

Example float_of_bits_infinity :
  float_of_bits 0xFF800000 = S754_infinity true.
Proof. reflexivity. Qed.

(** Kinds 0 and 1 on the same value give checksums one apart. *)
Example checksum_WAVELEN0_BANK0 :
  checksum (exec (createMessage_size_t 0x12345678 WAVELEN0) (msgpacket_ctor 0 0 0))
  = 0x444C
  /\ checksum (exec (createMessage_size_t 0x12345678 BANK0) (msgpacket_ctor 0 0 0))
     = 0x444D.
Proof. split; reflexivity. Qed.

(** A packet read from a misframed buffer fails the magic-byte check. *)
Example misframed_packet :
  eval magicByteOk (mk_msgpacket 0x43DC0000 10 0x55 0x43D6) = false
  /\ eval checksumIsOk (mk_msgpacket 0x43DC0000 10 0x55 0x43D6) = true.
Proof. split; reflexivity. Qed.

(** ** The enumeration *)

Lemma ordinal_range (k : messageTypes) : 0 <= ordinal k <= 17.
Proof. destruct k; vm_compute; split; discriminate. Qed.

Lemma to_uint8_ordinal (k : messageTypes) : to_uint8 (ordinal k) = ordinal k.
Proof.
  unfold to_uint8. apply Z.mod_small.
  pose proof (ordinal_range k). lia.
Qed.

Lemma enumerators_complete (k : messageTypes) :
  In k messageTypes_enumerators.
Proof. destruct k; simpl; tauto. Qed.

Lemma enumerators_NoDup : NoDup messageTypes_enumerators.
Proof.
  unfold messageTypes_enumerators.
  repeat (constructor; [simpl; intuition discriminate |]).
  constructor.
Qed.

(** C7, as the claim words it, fails: the declaration lists eighteen
    enumerators, not sixteen. *)
Lemma messageTypes_not_sixteen :
  length messageTypes_enumerators = 18%nat
  /\ Nat.eqb (length messageTypes_enumerators) 16 = false.
Proof. split; reflexivity. Qed.

(** C7 (amended): the Message Kind enumeration consists of eighteen
    variants, exactly WAVELEN0, BANK0, BANK1, CTRL, CTRL0 .. CTRL5, DETUNE,
    OCTSPREAD, METAMOD3 .. METAMOD8 in that order, every kind occurs once,
    and their ordinals are 0 to 17 in ascending order. *)
Theorem messageTypes_eighteen_in_order :
  messageTypes_enumerators
  = [WAVELEN0; BANK0; BANK1; CTRL; CTRL0; CTRL1; CTRL2; CTRL3; CTRL4; CTRL5;
     DETUNE; OCTSPREAD; METAMOD3; METAMOD4; METAMOD5; METAMOD6; METAMOD7;
     METAMOD8]
  /\ length messageTypes_enumerators = 18%nat
  /\ map ordinal messageTypes_enumerators
     = [0; 1; 2; 3; 4; 5; 6; 7; 8; 9; 10; 11; 12; 13; 14; 15; 16; 17]
  /\ NoDup messageTypes_enumerators
  /\ (forall k, In k messageTypes_enumerators)
  /\ (forall k, nth_error messageTypes_enumerators (Z.to_nat (ordinal k))
                = Some k).
Proof.
  split; [reflexivity |].
  split; [reflexivity |].
  split; [reflexivity |].
  split; [exact enumerators_NoDup |].
  split; [exact enumerators_complete |].
  intros k; destruct k; reflexivity.
Qed.

(** ** Layout of the packet *)

Lemma le_bytes_length (n : nat) (z : Z) : length (le_bytes n z) = n.
Proof. revert z; induction n as [| n IH]; intros z; simpl; [| rewrite IH]; reflexivity. Qed.

(** The static assertion accepts exactly the platforms whose [size_t] is
    no wider than the 4-byte float it shares the slot with. *)
Lemma static_assert_pins_size_t (w : Z) :
  static_assert_msgpacket_size_on w = true <-> w <= 4.
Proof.
  unfold static_assert_msgpacket_size_on, sizeof_packed_on, msgpacket_members.
  cbn [fold_right snd sizeof_member_on sizeof_on].
  rewrite Z.eqb_eq. lia.
Qed.

(** C1: the packed structure is 8 bytes with no padding, its members at
    offsets 0 (value, 4 bytes), 4 (msgType, 1 byte), 5 (magicByte, 1 byte)
    and 6 (checksum, 2 bytes); the source's static assertion holds; and the
    object representation of every packet is exactly 8 bytes long, with the
    kind byte at index 4 and the magic byte at index 5. *)
Theorem msgpacket_layout_8_bytes :
  packed_layout msgpacket_members 0
  = [("value"%string, 0, 4); ("msgType"%string, 4, 1);
     ("magicByte"%string, 5, 1); ("checksum"%string, 6, 2)]
  /\ sizeof_msgpacket = 8
  /\ static_assert_msgpacket_size = true
  /\ (forall p : msgpacket,
        length (object_representation p) = 8%nat
        /\ nth_error (object_representation p) 4 = Some (to_uint8 (msgType p))
        /\ nth_error (object_representation p) 5
           = Some (to_uint8 (magicByte p))).
Proof.
  split; [reflexivity |].
  split; [reflexivity |].
  split; [reflexivity |].
  intros p. unfold object_representation.
  split; [rewrite !length_app, !le_bytes_length; reflexivity |].
  split; reflexivity.
Qed.

(** ** Running the helpers *)

Ltac run :=
  unfold exec, eval, createMessage_float, createMessage_size_t, calcCheckSum,
    checksumIsOk, magicByteOk, bind, ret, load_uintValue, load_floatValue,
    load_msgType, load_magicByte, load_checksum, store_uintValue,
    store_floatValue, store_msgType, store_checksum;
  cbn [fst snd value msgType magicByte checksum].

Lemma calcCheckSum_exec (p : msgpacket) :
  exec calcCheckSum p
  = mk_msgpacket (value p) (msgType p) (magicByte p)
      (fold16 (value p) (msgType p)).
Proof.
  run. unfold fold16, to_uint16.
  rewrite Z.mod_mod by (apply Z.pow_nonzero; lia). reflexivity.
Qed.

Lemma checksumIsOk_eval (p : msgpacket) :
  eval checksumIsOk p = (checksum p =? fold16 (value p) (msgType p)).
Proof. reflexivity. Qed.

Lemma createMessage_float_exec (x : float) (k : messageTypes) (msg : msgpacket) :
  exec (createMessage_float x k) msg
  = mk_msgpacket (bits_of_float x) (ordinal k) (magicByte msg)
      (fold16 (bits_of_float x) (ordinal k)).
Proof.
  change (exec (createMessage_float x k) msg)
    with (exec calcCheckSum
            (mk_msgpacket (bits_of_float x) (to_uint8 (ordinal k))
               (magicByte msg) (checksum msg))).
  rewrite calcCheckSum_exec; cbn [value msgType magicByte checksum].
  rewrite to_uint8_ordinal. reflexivity.
Qed.

Lemma createMessage_size_t_exec (u : Z) (k : messageTypes) (msg : msgpacket) :
  exec (createMessage_size_t u k) msg
  = mk_msgpacket (to_uint32 u) (ordinal k) (magicByte msg)
      (fold16 (to_uint32 u) (ordinal k)).
Proof.
  change (exec (createMessage_size_t u k) msg)
    with (exec calcCheckSum
            (mk_msgpacket (to_uint32 u) (to_uint8 (ordinal k))
               (magicByte msg) (checksum msg))).
  rewrite calcCheckSum_exec; cbn [value msgType magicByte checksum].
  rewrite to_uint8_ordinal. reflexivity.
Qed.

(** ** Bits of the checksum *)

Lemma testbit_small (z k n : Z) :
  0 <= z < 2 ^ k -> 0 <= k <= n -> Z.testbit z n = false.
Proof.
  intros Hz Hk.
  rewrite <- (Z.mod_small z (2 ^ k)) by exact Hz.
  apply Z.mod_pow2_bits_high; exact Hk.
Qed.

Lemma fold16_range (v t : Z) : 0 <= fold16 v t < 2 ^ 16.
Proof. unfold fold16, to_uint16. apply Z.mod_pos_bound; lia. Qed.

(** Bit [j] of the code is the XOR of bit [j] of the low half, bit [j] of
    the high half and bit [j] of the kind byte. *)
Lemma fold16_testbit (v t j : Z) :
  0 <= j ->
  Z.testbit (fold16 v t) j
  = (j <? 16)
    && xorb (xorb (Z.testbit v j) (Z.testbit v (j + 16))) (Z.testbit t j).
Proof.
  intros Hj. unfold fold16, to_uint16, to_uint32.
  rewrite Z.testbit_mod_pow2 by lia.
  destruct (Z.ltb_spec j 16) as [Hlt | Hge]; [| reflexivity].
  rewrite !Z.lxor_spec, Z.shiftr_spec by exact Hj.
  rewrite !Z.testbit_mod_pow2 by lia.
  replace (j <? 32) with true by (symmetry; apply Z.ltb_lt; lia).
  replace (j + 16 <? 32) with true by (symmetry; apply Z.ltb_lt; lia).
  reflexivity.
Qed.

Lemma two_half_mask_low (m j : Z) :
  0 <= j < 16 -> Z.testbit (two_half_mask m) j = Z.testbit m j.
Proof.
  intros Hj. unfold two_half_mask.
  rewrite Z.lor_spec, Z.shiftl_spec by lia.
  rewrite Z.testbit_neg_r by lia. reflexivity.
Qed.

Lemma two_half_mask_high (m j : Z) :
  0 <= m < 2 ^ 16 -> 0 <= j ->
  Z.testbit (two_half_mask m) (j + 16) = Z.testbit m j.
Proof.
  intros Hm Hj. unfold two_half_mask.
  rewrite Z.lor_spec, Z.shiftl_spec by lia.
  rewrite (testbit_small m 16 (j + 16)) by lia.
  replace (j + 16 - 16) with j by lia.
  apply orb_false_r.
Qed.

(** Flipping the same positions in both halves cancels in the fold. *)
Lemma fold16_two_half_mask (v t m : Z) :
  0 <= m < 2 ^ 16 ->
  fold16 (Z.lxor v (two_half_mask m)) t = fold16 v t.
Proof.
  intros Hm. apply Z.bits_inj'; intros j Hj.
  rewrite !fold16_testbit by exact Hj.
  destruct (Z.ltb_spec j 16) as [Hlt | Hge]; [| reflexivity].
  rewrite !Z.lxor_spec.
  rewrite two_half_mask_low by lia.
  rewrite two_half_mask_high by lia.
  destruct (Z.testbit v j), (Z.testbit v (j + 16)), (Z.testbit m j),
    (Z.testbit t j); reflexivity.
Qed.

(** Flipping one value bit flips one bit of the fold. *)
Lemma fold16_flip_bit (v t i : Z) :
  0 <= i < 32 -> fold16 (Z.lxor v (2 ^ i)) t <> fold16 v t.
Proof.
  intros Hi Heq.
  assert (Hbit : forall j, 0 <= j < 16 -> (j = i \/ j + 16 = i) ->
            Z.testbit (fold16 (Z.lxor v (2 ^ i)) t) j
            = negb (Z.testbit (fold16 v t) j)).
  { intros j Hj Hij.
    rewrite !fold16_testbit by lia.
    replace (j <? 16) with true by (symmetry; apply Z.ltb_lt; lia).
    rewrite !Z.lxor_spec, !Z.pow2_bits_eqb by lia.
    destruct Hij as [-> | <-].
    - rewrite Z.eqb_refl.
      replace (i =? i + 16) with false by (symmetry; apply Z.eqb_neq; lia).
      destruct (Z.testbit v i), (Z.testbit v (i + 16)), (Z.testbit t i);
        reflexivity.
    - rewrite Z.eqb_refl.
      replace (j + 16 =? j) with false by (symmetry; apply Z.eqb_neq; lia).
      destruct (Z.testbit v j), (Z.testbit v (j + 16)), (Z.testbit t j);
        reflexivity. }
  destruct (Z.lt_ge_cases i 16) as [Hlow | Hhigh].
  - assert (Hi' : 0 <= i < 16) by lia.
    specialize (Hbit i Hi' (or_introl eq_refl)).
    rewrite Heq in Hbit. destruct (Z.testbit (fold16 v t) i); discriminate.
  - assert (Hi' : 0 <= i - 16 < 16) by lia.
    assert (Hshift : i - 16 + 16 = i) by lia.
    specialize (Hbit (i - 16) Hi' (or_intror Hshift)).
    rewrite Heq in Hbit.
    destruct (Z.testbit (fold16 v t) (i - 16)); discriminate.
Qed.

(** ** Compute-checksum *)

Lemma to_uint16_land (z : Z) : to_uint16 z = Z.land z 0xFFFF.
Proof.
  unfold to_uint16. change 0xFFFF with (Z.ones 16).
  symmetry. apply Z.land_ones. lia.
Qed.

(** C2: [calcCheckSum] sets the checksum member to the low 16 bits of
    v XOR (v >> 16) XOR msgType, where v is the 32-bit pattern held in the
    value member, and leaves value, msgType and magicByte as they were.  The
    pattern is used as it is stored, whether the float or the unsigned
    member of the union was written last. *)
Theorem calcCheckSum_sets_low16_fold (p : msgpacket) :
  let v := to_uint32 (value p) in
  let p' := exec calcCheckSum p in
  checksum p' = Z.land (Z.lxor (Z.lxor v (Z.shiftr v 16)) (msgType p)) 0xFFFF
  /\ (forall j, 0 <= j ->
        Z.testbit (checksum p') j
        = (j <? 16)
          && xorb (xorb (Z.testbit (value p) j) (Z.testbit (value p) (j + 16)))
               (Z.testbit (msgType p) j))
  /\ value p' = value p
  /\ msgType p' = msgType p
  /\ magicByte p' = magicByte p
  /\ (forall x : float,
        let vf := to_uint32 (bits_of_float x) in
        checksum (exec (store_floatValue x ;; calcCheckSum) p)
        = Z.land (Z.lxor (Z.lxor vf (Z.shiftr vf 16)) (msgType p)) 0xFFFF)
  /\ (forall u : Z,
        let vu := to_uint32 u in
        checksum (exec (store_uintValue u ;; calcCheckSum) p)
        = Z.land (Z.lxor (Z.lxor vu (Z.shiftr vu 16)) (msgType p)) 0xFFFF).
Proof.
  intros v p'. subst v p'. rewrite calcCheckSum_exec.
  cbn [value msgType magicByte checksum].
  split; [unfold fold16; apply to_uint16_land |].
  split; [intros j Hj; apply fold16_testbit; exact Hj |].
  do 3 (split; [reflexivity |]).
  split.
  - intros x. cbv zeta.
    change (exec (store_floatValue x ;; calcCheckSum) p)
      with (exec calcCheckSum
              (mk_msgpacket (bits_of_float x) (msgType p) (magicByte p)
                 (checksum p))).
    rewrite calcCheckSum_exec. cbn [value msgType magicByte checksum].
    unfold fold16. apply to_uint16_land.
  - intros u. cbv zeta.
    change (exec (store_uintValue u ;; calcCheckSum) p)
      with (exec calcCheckSum
              (mk_msgpacket (to_uint32 u) (msgType p) (magicByte p)
                 (checksum p))).
    rewrite calcCheckSum_exec. cbn [value msgType magicByte checksum].
    unfold fold16.
    replace (to_uint32 (to_uint32 u)) with (to_uint32 u)
      by (unfold to_uint32; symmetry; apply Z.mod_mod, Z.pow_nonzero; lia).
    apply to_uint16_land.
Qed.

(** ** Verification *)

(** C5: [checksumIsOk] answers true exactly when the stored checksum is the
    one [calcCheckSum] would store for the packet's current value and kind,
    and false exactly when it is not; it only returns this boolean and
    leaves the packet as it found it. *)
Theorem checksumIsOk_iff_recomputed (p : msgpacket) :
  (eval checksumIsOk p = true
   <-> checksum p = checksum (exec calcCheckSum p))
  /\ (eval checksumIsOk p = false
      <-> checksum p <> checksum (exec calcCheckSum p))
  /\ exec checksumIsOk p = p.
Proof.
  rewrite checksumIsOk_eval, calcCheckSum_exec.
  cbn [checksum].
  split; [apply Z.eqb_eq |].
  split; [apply Z.eqb_neq | reflexivity].
Qed.

(** C6: [magicByteOk] answers true exactly when the magicByte member is
    170; a packet object built by its constructor and filled by either
    [createMessage] passes; a packet whose magic byte was overwritten with
    a byte [b] passes only if [b] is 170, so any other byte fails. *)
Theorem magicByteOk_iff_170 (p : msgpacket) :
  MAGIC_BYTE = 170
  /\ (eval magicByteOk p = true <-> magicByte p = 170)
  /\ (eval magicByteOk p = false <-> magicByte p <> 170)
  /\ (forall v t c x k,
        eval magicByteOk
          (exec (createMessage_float x k) (msgpacket_ctor v t c)) = true)
  /\ (forall v t c u k,
        eval magicByteOk
          (exec (createMessage_size_t u k) (msgpacket_ctor v t c)) = true)
  /\ (forall b,
        eval magicByteOk (overwrite_magicByte b p) = (to_uint8 b =? 170)).
Proof.
  split; [reflexivity |].
  split; [apply Z.eqb_eq |].
  split; [apply Z.eqb_neq |].
  split; [intros; rewrite createMessage_float_exec; reflexivity |].
  split; [intros; rewrite createMessage_size_t_exec; reflexivity |].
  intros b. reflexivity.
Qed.

(** C9: neither [createMessage] touches magicByte (value, msgType and
    checksum are the only members they write), and [checksumIsOk] and
    [magicByteOk] leave the whole packet unchanged. *)
Theorem helpers_frame (msg : msgpacket) (x : float) (u : Z) (k : messageTypes) :
  magicByte (exec (createMessage_float x k) msg) = magicByte msg
  /\ magicByte (exec (createMessage_size_t u k) msg) = magicByte msg
  /\ exec checksumIsOk msg = msg
  /\ exec magicByteOk msg = msg.
Proof.
  rewrite createMessage_float_exec, createMessage_size_t_exec.
  repeat split.
Qed.

(** ** Construction and the checksum *)

Lemma checksumIsOk_after_calcCheckSum (p : msgpacket) :
  eval checksumIsOk (exec calcCheckSum p) = true.
Proof.
  rewrite calcCheckSum_exec, checksumIsOk_eval.
  cbn [value msgType checksum]. apply Z.eqb_refl.
Qed.

Lemma checksumIsOk_createMessage_float msg x k :
  eval checksumIsOk (exec (createMessage_float x k) msg) = true.
Proof.
  rewrite createMessage_float_exec, checksumIsOk_eval.
  cbn [value msgType checksum]. apply Z.eqb_refl.
Qed.

Lemma checksumIsOk_createMessage_size_t msg u k :
  eval checksumIsOk (exec (createMessage_size_t u k) msg) = true.
Proof.
  rewrite createMessage_size_t_exec, checksumIsOk_eval.
  cbn [value msgType checksum]. apply Z.eqb_refl.
Qed.

(** C4: right after either [createMessage], whatever the value and the
    kind, [checksumIsOk] answers true; and the packet built from 440.0f and
    DETUNE has kind byte 10, passes both checks and reads back as 440.0f. *)
Theorem checksumIsOk_after_createMessage :
  (forall msg x k,
     eval checksumIsOk (exec (createMessage_float x k) msg) = true)
  /\ (forall msg u k,
       eval checksumIsOk (exec (createMessage_size_t u k) msg) = true)
  /\ (forall v t c,
       let p := exec (createMessage_float f440 DETUNE) (msgpacket_ctor v t c) in
       ordinal DETUNE = 10
       /\ msgType p = 10
       /\ magicByte p = 170
       /\ length (object_representation p) = 8%nat
       /\ eval checksumIsOk p = true
       /\ eval magicByteOk p = true
       /\ eval load_floatValue p = f440).
Proof.
  split; [exact checksumIsOk_createMessage_float |].
  split; [exact checksumIsOk_createMessage_size_t |].
  intros v t c p. subst p. rewrite createMessage_float_exec.
  split; [reflexivity |].
  split; [reflexivity |].
  split; [reflexivity |].
  split; [reflexivity |].
  split; [rewrite checksumIsOk_eval; apply Z.eqb_refl |].
  split; [reflexivity |].
  vm_compute. reflexivity.
Qed.

(** ** What the checksum detects and what it misses *)

Lemma checksumIsOk_flip_value_bit (p : msgpacket) (i : Z) :
  0 <= i < 32 ->
  eval checksumIsOk p = true ->
  eval checksumIsOk (flip_value_bit i p) = false.
Proof.
  intros Hi Hok.
  rewrite checksumIsOk_eval in *.
  apply Z.eqb_eq in Hok. apply Z.eqb_neq.
  unfold flip_value_bit, xor_value; cbn [value msgType checksum].
  rewrite Hok. intros Heq.
  apply (fold16_flip_bit (value p) (msgType p) i Hi). symmetry. exact Heq.
Qed.

(** C8: after either [createMessage], flipping any one of the 32 bits of
    the value member while the stored checksum stays as it is makes
    [checksumIsOk] answer false. *)
Theorem single_bit_flip_detected
    (msg : msgpacket) (x : float) (u : Z) (k : messageTypes) (i : Z) :
  0 <= i < 32 ->
  eval checksumIsOk (flip_value_bit i (exec (createMessage_float x k) msg))
  = false
  /\ eval checksumIsOk (flip_value_bit i (exec (createMessage_size_t u k) msg))
     = false.
Proof.
  intros Hi. split; apply checksumIsOk_flip_value_bit; try exact Hi.
  - apply checksumIsOk_createMessage_float.
  - apply checksumIsOk_createMessage_size_t.
Qed.

Lemma single_bit_flip_detected_witness :
  0 <= 31 < 32
  /\ eval checksumIsOk
       (flip_value_bit 31
          (exec (createMessage_float f440 DETUNE) (msgpacket_ctor 0 0 0)))
     = false
  /\ eval checksumIsOk
       (flip_value_bit 31
          (exec (createMessage_size_t 0xFFFFFFFF DETUNE) (msgpacket_ctor 0 0 0)))
     = false.
Proof.
  split; [lia |].
  apply (single_bit_flip_detected (msgpacket_ctor 0 0 0) f440 0xFFFFFFFF DETUNE 31); lia.
Defined.

(** C10: for a nonzero 16-bit mask [m], XORing the value bits with
    (m << 16) | m changes the value but not the checksum recomputed from
    it; with msgType and the stored checksum untouched, [checksumIsOk]
    answers on the damaged packet what it answered before, so a packet that
    passed still passes. *)
Theorem two_half_corruption_undetected (p : msgpacket) (m : Z) :
  0 < m < 2 ^ 16 ->
  let p' := xor_value (two_half_mask m) p in
  value p' <> value p
  /\ msgType p' = msgType p
  /\ checksum p' = checksum p
  /\ checksum (exec calcCheckSum p') = checksum (exec calcCheckSum p)
  /\ eval checksumIsOk p' = eval checksumIsOk p
  /\ (eval checksumIsOk p = true -> eval checksumIsOk p' = true).
Proof.
  intros Hm p'.
  assert (Hfold : fold16 (value p') (msgType p') = fold16 (value p) (msgType p)).
  { subst p'. unfold xor_value; cbn [value msgType].
    apply fold16_two_half_mask. lia. }
  assert (Hok : eval checksumIsOk p' = eval checksumIsOk p).
  { rewrite !checksumIsOk_eval, Hfold. reflexivity. }
  split.
  { subst p'. unfold xor_value; cbn [value]. intros Heq.
    assert (Hmask : two_half_mask m = 0).
    { rewrite <- (Z.lxor_0_l (two_half_mask m)).
      rewrite <- (Z.lxor_nilpotent (value p)).
      rewrite Z.lxor_assoc, Heq. reflexivity. }
    unfold two_half_mask in Hmask.
    apply Z.lor_eq_0_iff in Hmask. lia. }
  split; [reflexivity |].
  split; [reflexivity |].
  split; [rewrite !calcCheckSum_exec; exact Hfold |].
  split; [exact Hok |].
  intros H. rewrite Hok. exact H.
Qed.

Lemma two_half_corruption_undetected_witness :
  0 < 0x8001 < 2 ^ 16
  /\ value (xor_value (two_half_mask 0x8001)
              (exec (createMessage_float f440 DETUNE) (msgpacket_ctor 0 0 0)))
     = 0xC3DD8001
  /\ eval checksumIsOk
       (xor_value (two_half_mask 0x8001)
          (exec (createMessage_float f440 DETUNE) (msgpacket_ctor 0 0 0)))
     = true.
Proof.
  assert (Hm : 0 < 0x8001 < 2 ^ 16) by lia.
  split; [exact Hm |].
  split; [reflexivity |].
  destruct (two_half_corruption_undetected
              (exec (createMessage_float f440 DETUNE) (msgpacket_ctor 0 0 0))
              0x8001 Hm) as (_ & _ & _ & _ & _ & Hstill).
  apply Hstill. apply checksumIsOk_createMessage_float.
Defined.

(** ** The float view of the value slot *)

Lemma digits2_pos_bounds (m : positive) :
  2 ^ (Zpos (digits2_pos m) - 1) <= Zpos m < 2 ^ Zpos (digits2_pos m).
Proof.
  induction m as [m IH | m IH |]; cbn [digits2_pos].
  - rewrite Pos2Z.inj_succ, Z.pow_succ_r by lia.
    replace (Z.succ (Zpos (digits2_pos m)) - 1)
      with (Z.succ (Zpos (digits2_pos m) - 1)) by lia.
    rewrite Z.pow_succ_r by lia. lia.
  - rewrite Pos2Z.inj_succ, Z.pow_succ_r by lia.
    replace (Z.succ (Zpos (digits2_pos m)) - 1)
      with (Z.succ (Zpos (digits2_pos m) - 1)) by lia.
    rewrite Z.pow_succ_r by lia. lia.
  - cbn. lia.
Qed.

(** A valid finite binary32 number is normal (24 significant bits) or
    subnormal (fewer bits, least exponent). *)
Lemma bounded32_cases (m : positive) (e : Z) :
  bounded prec32 emax32 m e = true ->
  (2 ^ 23 <= Zpos m < 2 ^ 24 /\ -149 <= e <= 104)
  \/ (Zpos m < 2 ^ 23 /\ e = -149).
Proof.
  unfold bounded, canonical_mantissa, fexp, emin, prec32, emax32.
  intros H. apply andb_true_iff in H. destruct H as [Hc He].
  apply Z.eqb_eq in Hc. apply Z.leb_le in He.
  pose proof (digits2_pos_bounds m) as Hd.
  set (d := Zpos (digits2_pos m)) in *.
  destruct (Z.lt_ge_cases (d + e - 24) (-149)) as [Hsub | Hnorm].
  - right. assert (e = -149) by lia. split; [| assumption].
    assert (d <= 23) by lia.
    assert (2 ^ d <= 2 ^ 23) by (apply Z.pow_le_mono_r; lia).
    lia.
  - left. assert (d = 24) by lia.
    replace d with 24 in Hd by lia. simpl (24 - 1) in Hd. lia.
Qed.

Lemma join_bits32_testbit (s : bool) (E M n : Z) :
  0 <= n ->
  Z.testbit (join_bits32 s E M) n
  = (s && (n =? 31)) || (Z.testbit E (n - 23) || Z.testbit M n).
Proof.
  intros Hn. unfold join_bits32.
  rewrite !Z.lor_spec, !Z.shiftl_spec by exact Hn.
  f_equal. destruct s; cbn [andb].
  - change 1 with (2 ^ 0). rewrite Z.pow2_bits_eqb by lia.
    destruct (Z.eqb_spec 0 (n - 31)), (Z.eqb_spec n 31); try reflexivity; lia.
  - apply Z.testbit_0_l.
Qed.

Section JoinBits.
Variables (s : bool) (E M : Z).
Hypothesis HE : 0 <= E < 2 ^ 8.
Hypothesis HM : 0 <= M < 2 ^ 23.

Lemma join_bits32_sign : Z.testbit (join_bits32 s E M) 31 = s.
Proof.
  rewrite join_bits32_testbit by lia.
  rewrite (testbit_small E 8 (31 - 23)) by (simpl; lia).
  rewrite (testbit_small M 23 31) by lia.
  destruct s; reflexivity.
Qed.

Lemma join_bits32_exponent :
  Z.land (Z.shiftr (join_bits32 s E M) 23) 0xFF = E.
Proof.
  change 0xFF with (Z.ones 8). rewrite Z.land_ones by lia.
  apply Z.bits_inj'; intros n Hn.
  rewrite Z.testbit_mod_pow2 by lia.
  destruct (Z.ltb_spec n 8) as [Hlt | Hge]; cbn [andb].
  - rewrite Z.shiftr_spec, join_bits32_testbit by lia.
    replace (n + 23 =? 31) with false by (symmetry; apply Z.eqb_neq; lia).
    rewrite (testbit_small M 23 (n + 23)) by lia.
    replace (n + 23 - 23) with n by lia.
    rewrite andb_false_r, orb_false_r. reflexivity.
  - symmetry. apply (testbit_small E 8); lia.
Qed.

Lemma join_bits32_fraction : Z.land (join_bits32 s E M) 0x7FFFFF = M.
Proof.
  change 0x7FFFFF with (Z.ones 23). rewrite Z.land_ones by lia.
  apply Z.bits_inj'; intros n Hn.
  rewrite Z.testbit_mod_pow2 by lia.
  destruct (Z.ltb_spec n 23) as [Hlt | Hge]; cbn [andb].
  - rewrite join_bits32_testbit by lia.
    replace (n =? 31) with false by (symmetry; apply Z.eqb_neq; lia).
    rewrite (Z.testbit_neg_r E (n - 23)) by lia.
    rewrite andb_false_r. reflexivity.
  - symmetry. apply (testbit_small M 23); lia.
Qed.

Lemma join_bits32_range : 0 <= join_bits32 s E M < 2 ^ 32.
Proof.
  assert (Hnn : 0 <= join_bits32 s E M).
  { unfold join_bits32. apply Z.lor_nonneg. split.
    - apply Z.shiftl_nonneg. destruct s; lia.
    - apply Z.lor_nonneg. split; [apply Z.shiftl_nonneg |]; lia. }
  assert (Hmod : join_bits32 s E M mod 2 ^ 32 = join_bits32 s E M).
  { apply Z.bits_inj'; intros n Hn.
    rewrite Z.testbit_mod_pow2 by lia.
    destruct (Z.ltb_spec n 32) as [Hlt | Hge]; cbn [andb]; [reflexivity |].
    rewrite join_bits32_testbit by lia.
    replace (n =? 31) with false by (symmetry; apply Z.eqb_neq; lia).
    rewrite (testbit_small E 8 (n - 23)) by lia.
    rewrite (testbit_small M 23 n) by lia.
    rewrite andb_false_r. reflexivity. }
  rewrite <- Hmod. apply Z.mod_pos_bound. lia.
Qed.
End JoinBits.

(** Every valid float has a 32-bit pattern. *)
Lemma bits_of_float_range (x : float) :
  valid_float x = true -> 0 <= bits_of_float x < 2 ^ 32.
Proof.
  intros Hv. destruct x as [s | s | | s m e]; cbn [bits_of_float].
  - apply join_bits32_range; lia.
  - apply join_bits32_range; lia.
  - apply join_bits32_range; lia.
  - destruct (bounded32_cases m e Hv) as [[Hm He] | [Hm He]].
    + replace (2 ^ 23 <=? Zpos m) with true by (symmetry; apply Z.leb_le; lia).
      apply join_bits32_range; lia.
    + replace (2 ^ 23 <=? Zpos m) with false by (symmetry; apply Z.leb_gt; lia).
      apply join_bits32_range; lia.
Qed.

(** What either [createMessage] leaves in a freshly defined packet fits the
    C type of every member. *)
Lemma createMessage_float_wf (v t c : Z) (x : float) (k : messageTypes) :
  valid_float x = true ->
  wf_msgpacket (exec (createMessage_float x k) (msgpacket_ctor v t c)).
Proof.
  intros Hv. rewrite createMessage_float_exec.
  unfold wf_msgpacket; cbn [value msgType magicByte checksum msgpacket_ctor].
  pose proof (bits_of_float_range x Hv).
  pose proof (ordinal_range k).
  pose proof (fold16_range (bits_of_float x) (ordinal k)).
  unfold MAGIC_BYTE. lia.
Qed.

Lemma createMessage_size_t_wf (v t c u : Z) (k : messageTypes) :
  wf_msgpacket (exec (createMessage_size_t u k) (msgpacket_ctor v t c)).
Proof.
  rewrite createMessage_size_t_exec.
  unfold wf_msgpacket; cbn [value msgType magicByte checksum msgpacket_ctor].
  assert (0 <= to_uint32 u < 2 ^ 32)
    by (unfold to_uint32; apply Z.mod_pos_bound; lia).
  pose proof (ordinal_range k).
  pose proof (fold16_range (to_uint32 u) (ordinal k)).
  unfold MAGIC_BYTE. lia.
Qed.

(** Reading a stored finite float back gives the float that was stored. *)
Lemma float_of_bits_of_float (x : float) :
  valid_float x = true -> is_finite x = true ->
  float_of_bits (bits_of_float x) = x.
Proof.
  intros Hv Hf.
  destruct x as [s | s | | s m e]; cbn [bits_of_float]; try discriminate Hf.
  - unfold float_of_bits.
    rewrite join_bits32_sign, join_bits32_exponent, join_bits32_fraction by lia.
    reflexivity.
  - destruct (bounded32_cases m e Hv) as [[Hm He] | [Hm He]].
    + replace (2 ^ 23 <=? Zpos m) with true by (symmetry; apply Z.leb_le; lia).
      unfold float_of_bits.
      rewrite join_bits32_sign, join_bits32_exponent, join_bits32_fraction
        by lia.
      replace (e + 150 =? 0) with false by (symmetry; apply Z.eqb_neq; lia).
      replace (e + 150 =? 255) with false by (symmetry; apply Z.eqb_neq; lia).
      replace (Zpos m - 2 ^ 23 + 2 ^ 23) with (Zpos m) by lia.
      replace (e + 150 - 150) with e by lia.
      reflexivity.
    + replace (2 ^ 23 <=? Zpos m) with false by (symmetry; apply Z.leb_gt; lia).
      unfold float_of_bits.
      rewrite join_bits32_sign, join_bits32_exponent, join_bits32_fraction
        by lia.
      subst e. reflexivity.
Qed.

(** C3: a finite float stored by the float [createMessage] is read back
    from the float member unchanged (the slot holds exactly its 32-bit
    pattern) and msgType holds the ordinal of the kind; an unsigned value
    that fits the 4-byte slot stored by the unsigned [createMessage] is read
    back from the unsigned member unchanged, again with the ordinal of the
    kind in msgType. *)
Theorem createMessage_round_trip
    (msg : msgpacket) (k : messageTypes) (x : float) (u : Z) :
  valid_float x = true -> is_finite x = true ->
  0 <= u < 2 ^ 32 ->
  let pf := exec (createMessage_float x k) msg in
  let pu := exec (createMessage_size_t u k) msg in
  value pf = bits_of_float x
  /\ eval load_floatValue pf = x
  /\ msgType pf = ordinal k
  /\ eval load_uintValue pu = u
  /\ msgType pu = ordinal k.
Proof.
  intros Hv Hf Hu pf pu. subst pf pu.
  rewrite createMessage_float_exec, createMessage_size_t_exec.
  unfold eval, load_floatValue, load_uintValue; cbn [fst value msgType].
  split; [reflexivity |].
  split; [apply float_of_bits_of_float; assumption |].
  split; [reflexivity |].
  split; [apply Z.mod_small; exact Hu | reflexivity].
Qed.

Lemma createMessage_round_trip_witness :
  valid_float f440 = true /\ is_finite f440 = true
  /\ 0 <= 0xFFFFFFFF < 2 ^ 32
  /\ eval load_floatValue
       (exec (createMessage_float f440 DETUNE) (msgpacket_ctor 0 0 0)) = f440
  /\ eval load_uintValue
       (exec (createMessage_size_t 0xFFFFFFFF DETUNE) (msgpacket_ctor 0 0 0))
     = 0xFFFFFFFF
  /\ msgType
       (exec (createMessage_size_t 0xFFFFFFFF DETUNE) (msgpacket_ctor 0 0 0))
     = 10.
Proof.
  assert (Hv : valid_float f440 = true) by reflexivity.
  assert (Hf : is_finite f440 = true) by reflexivity.
  assert (Hu : 0 <= 0xFFFFFFFF < 2 ^ 32) by lia.
  destruct (createMessage_round_trip (msgpacket_ctor 0 0 0) DETUNE f440
              0xFFFFFFFF Hv Hf Hu) as (_ & Hx & _ & Hval & Hkind).
  repeat split; try assumption; lia.
Defined.

(** ** Recomputing and rebuilding *)

(** X1: [calcCheckSum] makes any packet pass [checksumIsOk], whatever its
    members held; it changes nothing when run again; and the packets it
    leaves unchanged are exactly those that already pass. *)
Theorem calcCheckSum_repairs (p : msgpacket) :
  eval checksumIsOk (exec calcCheckSum p) = true
  /\ exec calcCheckSum (exec calcCheckSum p) = exec calcCheckSum p
  /\ (exec calcCheckSum p = p <-> eval checksumIsOk p = true).
Proof.
  split; [apply checksumIsOk_after_calcCheckSum |].
  split.
  { rewrite !calcCheckSum_exec. reflexivity. }
  rewrite calcCheckSum_exec, checksumIsOk_eval. split.
  - intros H. apply Z.eqb_eq.
    apply (f_equal checksum) in H. cbn [checksum] in H. symmetry. exact H.
  - intros H. apply Z.eqb_eq in H. rewrite <- H. destruct p. reflexivity.
Qed.

(** X2: a packet filled by [createMessage] keeps nothing of what its storage
    held before except the magic byte: filling the same storage again gives
    the packet of the last call alone, and a [calcCheckSum] after a
    [createMessage] changes nothing. *)
Theorem createMessage_overwrites
    (msg : msgpacket) (x1 x2 : float) (u1 u2 : Z) (k1 k2 : messageTypes) :
  exec (createMessage_float x2 k2) (exec (createMessage_float x1 k1) msg)
  = exec (createMessage_float x2 k2) msg
  /\ exec (createMessage_float x2 k2) (exec (createMessage_size_t u1 k1) msg)
     = exec (createMessage_float x2 k2) msg
  /\ exec (createMessage_size_t u2 k2) (exec (createMessage_float x1 k1) msg)
     = exec (createMessage_size_t u2 k2) msg
  /\ exec (createMessage_size_t u2 k2) (exec (createMessage_size_t u1 k1) msg)
     = exec (createMessage_size_t u2 k2) msg
  /\ exec calcCheckSum (exec (createMessage_float x1 k1) msg)
     = exec (createMessage_float x1 k1) msg
  /\ exec calcCheckSum (exec (createMessage_size_t u1 k1) msg)
     = exec (createMessage_size_t u1 k1) msg
  /\ exec (createMessage_float x1 k1) msg
     = exec (createMessage_float x1 k1) (mk_msgpacket 0 0 (magicByte msg) 0)
  /\ exec (createMessage_size_t u1 k1) msg
     = exec (createMessage_size_t u1 k1) (mk_msgpacket 0 0 (magicByte msg) 0).
Proof.
  rewrite !calcCheckSum_exec, !createMessage_float_exec,
    !createMessage_size_t_exec.
  cbn [value msgType magicByte checksum].
  repeat split.
Qed.



(** ** The kind in the checksum *)

Lemma ordinal_inj (k1 k2 : messageTypes) : ordinal k1 = ordinal k2 -> k1 = k2.
Proof.
  intros H.
  assert (Hsome : Some k1 = Some k2).
  { transitivity (nth_error messageTypes_enumerators (Z.to_nat (ordinal k1))).
    - destruct k1; reflexivity.
    - rewrite H. destruct k2; reflexivity. }
  injection Hsome. trivial.
Qed.

(** The kind byte enters the fold by a plain XOR. *)
Lemma fold16_kind_xor (v t1 t2 : Z) :
  0 <= t1 < 2 ^ 16 -> 0 <= t2 < 2 ^ 16 ->
  Z.lxor (fold16 v t1) (fold16 v t2) = Z.lxor t1 t2.
Proof.
  intros H1 H2. apply Z.bits_inj'; intros j Hj.
  rewrite !Z.lxor_spec, !fold16_testbit by exact Hj.
  destruct (Z.ltb_spec j 16) as [Hlt | Hge]; cbn [andb].
  - destruct (Z.testbit v j), (Z.testbit v (j + 16)), (Z.testbit t1 j),
      (Z.testbit t2 j); reflexivity.
  - rewrite (testbit_small t1 16 j), (testbit_small t2 16 j) by lia.
    reflexivity.
Qed.

(** X4: the checksums of one value under two kinds differ by exactly the XOR
    of the two ordinals, so they are equal only for equal kinds; this holds
    for both overloads. *)
Theorem checksum_kind_dependence
    (msg1 msg2 : msgpacket) (x : float) (u : Z) (k1 k2 : messageTypes) :
  let cf k := checksum (exec (createMessage_float x k) msg1) in
  let cu k := checksum (exec (createMessage_size_t u k) msg2) in
  Z.lxor (cf k1) (cf k2) = Z.lxor (ordinal k1) (ordinal k2)
  /\ Z.lxor (cu k1) (cu k2) = Z.lxor (ordinal k1) (ordinal k2)
  /\ (cf k1 = cf k2 <-> k1 = k2)
  /\ (cu k1 = cu k2 <-> k1 = k2).
Proof.
  intros cf cu. subst cf cu. cbv beta.
  rewrite !createMessage_float_exec, !createMessage_size_t_exec.
  cbn [checksum].
  pose proof (ordinal_range k1) as R1. pose proof (ordinal_range k2) as R2.
  assert (Hxor : forall v,
            Z.lxor (fold16 v (ordinal k1)) (fold16 v (ordinal k2))
            = Z.lxor (ordinal k1) (ordinal k2))
    by (intros v; apply fold16_kind_xor; lia).
  assert (Hiff : forall v,
            fold16 v (ordinal k1) = fold16 v (ordinal k2) <-> k1 = k2).
  { intros v. split.
    - intros Heq. apply ordinal_inj, Z.lxor_eq.
      rewrite <- (Hxor v), Heq. apply Z.lxor_nilpotent.
    - intros ->. reflexivity. }
  split; [apply Hxor |].
  split; [apply Hxor |].
  split; apply Hiff.
Qed.

(** ** Which damage the two checks catch *)

(** A mask on the value bits leaves the fold alone exactly when its high
    half repeats its low half. *)
Lemma fold16_xor_mask_iff (v t d : Z) :
  0 <= d < 2 ^ 32 ->
  fold16 (Z.lxor v d) t = fold16 v t <-> d / 2 ^ 16 = d mod 2 ^ 16.
Proof.
  intros Hd. split; intros H.
  - apply Z.bits_inj'; intros j Hj.
    rewrite <- Z.shiftr_div_pow2 by lia.
    rewrite Z.shiftr_spec, Z.testbit_mod_pow2 by lia.
    destruct (Z.ltb_spec j 16) as [Hlt | Hge]; cbn [andb].
    + apply (f_equal (fun z => Z.testbit z j)) in H.
      rewrite !fold16_testbit in H by exact Hj.
      replace (j <? 16) with true in H by (symmetry; apply Z.ltb_lt; lia).
      rewrite !Z.lxor_spec in H. cbn [andb] in H.
      destruct (Z.testbit v j), (Z.testbit v (j + 16)), (Z.testbit t j),
        (Z.testbit d j), (Z.testbit d (j + 16)); cbn in H;
        try reflexivity; discriminate H.
    + apply (testbit_small d 32); lia.
  - apply Z.bits_inj'; intros j Hj.
    rewrite !fold16_testbit by exact Hj.
    destruct (Z.ltb_spec j 16) as [Hlt | Hge]; cbn [andb]; [| reflexivity].
    apply (f_equal (fun z => Z.testbit z j)) in H.
    rewrite <- Z.shiftr_div_pow2 in H by lia.
    rewrite Z.shiftr_spec, Z.testbit_mod_pow2 in H by lia.
    replace (j <? 16) with true in H by (symmetry; apply Z.ltb_lt; lia).
    cbn [andb] in H.
    rewrite !Z.lxor_spec, H.
    destruct (Z.testbit v j), (Z.testbit v (j + 16)), (Z.testbit t j),
      (Z.testbit d j); reflexivity.
Qed.

(** X5: on a packet that passes [checksumIsOk], damage to the value bits by a
    32-bit XOR mask [d], with msgType and the stored checksum left alone,
    goes unnoticed exactly when the high half of [d] equals its low half;
    every other mask is caught. *)
Theorem value_damage_undetected_iff (p : msgpacket) (d : Z) :
  0 <= d < 2 ^ 32 ->
  eval checksumIsOk p = true ->
  (eval checksumIsOk (xor_value d p) = true <-> d / 2 ^ 16 = d mod 2 ^ 16).
Proof.
  intros Hd Hok.
  rewrite checksumIsOk_eval in *. apply Z.eqb_eq in Hok.
  unfold xor_value; cbn [value msgType checksum].
  rewrite Z.eqb_eq, <- (fold16_xor_mask_iff (value p) (msgType p) d Hd).
  rewrite Hok. split; intros H; symmetry; exact H.
Qed.

Lemma value_damage_undetected_iff_witness :
  0 <= 0x00FF0100 < 2 ^ 32
  /\ eval checksumIsOk
       (exec (createMessage_float f440 DETUNE) (msgpacket_ctor 0 0 0)) = true
  /\ eval checksumIsOk
       (xor_value 0x00FF0100
          (exec (createMessage_float f440 DETUNE) (msgpacket_ctor 0 0 0)))
     <> true.
Proof.
  assert (Hd : 0 <= 0x00FF0100 < 2 ^ 32) by lia.
  assert (Hok : eval checksumIsOk
                  (exec (createMessage_float f440 DETUNE) (msgpacket_ctor 0 0 0))
                = true) by reflexivity.
  split; [exact Hd |]. split; [exact Hok |].
  intros H.
  apply (value_damage_undetected_iff _ _ Hd Hok) in H.
  vm_compute in H. discriminate H.
Defined.

Lemma lxor_pow2_neq (a j : Z) : 0 <= j -> Z.lxor a (2 ^ j) <> a.
Proof.
  intros Hj H.
  assert (Hz : 2 ^ j = 0).
  { rewrite <- (Z.lxor_0_l (2 ^ j)), <- (Z.lxor_nilpotent a).
    rewrite Z.lxor_assoc, H. reflexivity. }
  pose proof (Z.pow_pos_nonneg 2 j). lia.
Qed.

Lemma fold16_flip_kind_bit (v t j : Z) :
  0 <= j < 16 -> fold16 v (Z.lxor t (2 ^ j)) <> fold16 v t.
Proof.
  intros Hj H.
  apply (f_equal (fun z => Z.testbit z j)) in H.
  rewrite !fold16_testbit in H by lia.
  replace (j <? 16) with true in H by (symmetry; apply Z.ltb_lt; lia).
  rewrite Z.lxor_spec, Z.pow2_bits_eqb, Z.eqb_refl in H by lia.
  destruct (Z.testbit v j), (Z.testbit v (j + 16)), (Z.testbit t j);
    discriminate H.
Qed.

Lemma flip_member_bit_checks (p : msgpacket) (f : member_name) (j : Z) :
  0 <= j < member_bits f ->
  eval checksumIsOk p = true ->
  eval magicByteOk p = true ->
  eval checksumIsOk (flip_member_bit f j p)
  = match f with m_magicByte => true | _ => false end
  /\ eval magicByteOk (flip_member_bit f j p)
     = match f with m_magicByte => false | _ => true end.
Proof.
  intros Hj Hok Hmagic.
  rewrite checksumIsOk_eval in *.
  assert (Hm : magicByte p = MAGIC_BYTE) by (apply Z.eqb_eq; exact Hmagic).
  apply Z.eqb_eq in Hok.
  destruct f; cbn [member_bits] in Hj;
    cbn [flip_member_bit value msgType magicByte checksum];
    (split; [| try exact Hmagic]).
  - apply Z.eqb_neq. rewrite Hok. intros H.
    apply (fold16_flip_bit (value p) (msgType p) j); [lia | symmetry; exact H].
  - apply Z.eqb_neq. rewrite Hok. intros H.
    apply (fold16_flip_kind_bit (value p) (msgType p) j);
      [lia | symmetry; exact H].
  - apply Z.eqb_eq. exact Hok.
  - unfold eval, magicByteOk, bind, ret, load_magicByte; cbn [fst magicByte].
    apply Z.eqb_neq. rewrite Hm. apply lxor_pow2_neq. lia.
  - apply Z.eqb_neq. rewrite <- Hok. apply lxor_pow2_neq. lia.
Qed.

(** X6: on a packet that passes both checks, one flipped bit in any member is
    caught by exactly one of them: [magicByteOk] catches a flip in the
    magic byte, which [checksumIsOk] does not see, and [checksumIsOk]
    catches a flip in value, msgType or checksum, which [magicByteOk] does
    not see. *)
Theorem single_bit_error_detected
    (p : msgpacket) (f : member_name) (j : Z) :
  0 <= j < member_bits f ->
  eval checksumIsOk p = true ->
  eval magicByteOk p = true ->
  let p' := flip_member_bit f j p in
  eval checksumIsOk p'
  = match f with m_magicByte => true | _ => false end
  /\ eval magicByteOk p'
     = match f with m_magicByte => false | _ => true end.
Proof.
  intros Hj Hok Hmagic p'. subst p'.
  apply flip_member_bit_checks; assumption.
Qed.

Lemma single_bit_error_detected_witness :
  0 <= 7 < member_bits m_msgType
  /\ eval checksumIsOk
       (flip_member_bit m_msgType 7
          (exec (createMessage_float f440 DETUNE) (msgpacket_ctor 0 0 0)))
     = false
  /\ eval magicByteOk
       (flip_member_bit m_msgType 7
          (exec (createMessage_float f440 DETUNE) (msgpacket_ctor 0 0 0)))
     = true.
Proof.
  assert (Hj : 0 <= 7 < member_bits m_msgType) by (cbn; lia).
  split; [exact Hj |].
  exact (single_bit_error_detected
           (exec (createMessage_float f440 DETUNE) (msgpacket_ctor 0 0 0))
           m_msgType 7 Hj eq_refl eq_refl).
Defined.

(** ** The byte image *)

Lemma testbit_byte_cons (b L n : Z) :
  is_byte b -> 0 <= n ->
  Z.testbit (b + 2 ^ 8 * L) n
  = if n <? 8 then Z.testbit b n else Z.testbit L (n - 8).
Proof.
  intros Hb Hn. destruct (Z.ltb_spec n 8) as [Hlt | Hge].
  - rewrite <- (Z.mod_pow2_bits_low (b + 2 ^ 8 * L) 8 n) by exact Hlt.
    rewrite (Z.mul_comm (2 ^ 8) L), Z.mod_add by lia.
    rewrite Z.mod_small by exact Hb. reflexivity.
  - replace n with (n - 8 + 8) at 1 by lia.
    rewrite <- Z.div_pow2_bits by lia.
    rewrite (Z.mul_comm (2 ^ 8) L), Z.div_add by lia.
    rewrite Z.div_small by exact Hb. reflexivity.
Qed.

Lemma le_bytes_are_bytes (n : nat) (z : Z) : Forall is_byte (le_bytes n z).
Proof.
  revert z. induction n as [| n IH]; intros z; cbn [le_bytes]; constructor.
  - unfold is_byte, to_uint8. apply Z.mod_pos_bound. lia.
  - apply IH.
Qed.

(** Reading back the [n] bytes of [z] gives [z] cut to [n] bytes. *)
Lemma le_combine_le_bytes (n : nat) (z : Z) :
  le_combine (le_bytes n z) = z mod 2 ^ (8 * Z.of_nat n).
Proof.
  revert z. induction n as [| n IH]; intros z; cbn [le_bytes le_combine].
  - cbn. symmetry. apply Z.mod_1_r.
  - rewrite IH, Z.shiftr_div_pow2 by lia.
    replace (8 * Z.of_nat (S n)) with (8 + 8 * Z.of_nat n) by lia.
    rewrite Z.pow_add_r by lia.
    rewrite Z.rem_mul_r by (try apply Z.pow_pos_nonneg; lia).
    reflexivity.
Qed.

(** Splitting the integer that [n] bytes spell gives the bytes back. *)
Lemma le_bytes_le_combine (bs : list Z) :
  Forall is_byte bs -> le_bytes (length bs) (le_combine bs) = bs.
Proof.
  induction 1 as [| b bs Hb _ IH]; cbn [length le_bytes le_combine];
    [reflexivity |].
  f_equal.
  - unfold to_uint8. rewrite (Z.mul_comm (2 ^ 8)), Z.mod_add by lia.
    apply Z.mod_small. exact Hb.
  - rewrite Z.shiftr_div_pow2 by lia.
    rewrite (Z.mul_comm (2 ^ 8)), Z.div_add by lia.
    rewrite Z.div_small by exact Hb. exact IH.
Qed.

Lemma le_combine_range (bs : list Z) :
  Forall is_byte bs -> 0 <= le_combine bs < 2 ^ (8 * Z.of_nat (length bs)).
Proof.
  induction 1 as [| b bs Hb _ IH]; cbn [length le_combine]; [cbn; lia |].
  replace (8 * Z.of_nat (S (length bs)))
    with (8 + 8 * Z.of_nat (length bs)) by lia.
  rewrite Z.pow_add_r by lia.
  unfold is_byte in Hb. nia.
Qed.

Lemma object_representation_members (p : msgpacket) :
  object_representation p
  = le_bytes 4 (value p) ++ le_bytes 1 (msgType p)
      ++ le_bytes 1 (magicByte p) ++ le_bytes 2 (checksum p).
Proof. reflexivity. Qed.

Lemma msgpacket_of_object_representation (p : msgpacket) :
  wf_msgpacket p -> msgpacket_of_bytes (object_representation p) = p.
Proof.
  intros (Hv & Ht & Hm & Hc).
  change (msgpacket_of_bytes (object_representation p))
    with (mk_msgpacket (le_combine (le_bytes 4 (value p)))
            (le_combine (le_bytes 1 (msgType p)))
            (le_combine (le_bytes 1 (magicByte p)))
            (le_combine (le_bytes 2 (checksum p)))).
  rewrite !le_combine_le_bytes.
  change (8 * Z.of_nat 4) with 32. change (8 * Z.of_nat 1) with 8.
  change (8 * Z.of_nat 2) with 16.
  rewrite !Z.mod_small by assumption.
  destruct p. reflexivity.
Qed.

(** X7: the eight bytes and the packet determine each other: the image of a
    well-formed packet consists of bytes and is read back as that packet,
    and any eight bytes are read as a well-formed packet whose image they
    are. *)
Theorem byte_image_round_trip (p : msgpacket) (bs : list Z) :
  wf_msgpacket p ->
  length bs = 8%nat -> Forall is_byte bs ->
  Forall is_byte (object_representation p)
  /\ msgpacket_of_bytes (object_representation p) = p
  /\ wf_msgpacket (msgpacket_of_bytes bs)
  /\ object_representation (msgpacket_of_bytes bs) = bs.
Proof.
  intros Hwf Hlen Hbs.
  split.
  { rewrite object_representation_members.
    repeat (apply Forall_app; split); apply le_bytes_are_bytes. }
  split; [apply msgpacket_of_object_representation; exact Hwf |].
  destruct bs as [| b0 [| b1 [| b2 [| b3 [| b4 [| b5 [| b6 [| b7 [| ? ?]]]]]]]]];
    try discriminate Hlen.
  repeat match goal with
         | H : Forall is_byte (_ :: _) |- _ =>
             let Hb := fresh "Hb" in
             pose proof (Forall_inv H) as Hb; apply Forall_inv_tail in H
         end.
  assert (H03 : Forall is_byte [b0; b1; b2; b3])
    by (repeat (apply Forall_cons; [assumption |]); apply Forall_nil).
  assert (H4 : Forall is_byte [b4]) by (repeat (apply Forall_cons; [assumption |]); apply Forall_nil).
  assert (H5 : Forall is_byte [b5]) by (repeat (apply Forall_cons; [assumption |]); apply Forall_nil).
  assert (H67 : Forall is_byte [b6; b7]) by (repeat (apply Forall_cons; [assumption |]); apply Forall_nil).
  change (msgpacket_of_bytes [b0; b1; b2; b3; b4; b5; b6; b7])
    with (mk_msgpacket (le_combine [b0; b1; b2; b3]) (le_combine [b4])
            (le_combine [b5]) (le_combine [b6; b7])).
  split.
  - unfold wf_msgpacket; cbn [value msgType magicByte checksum].
    pose proof (le_combine_range _ H03). pose proof (le_combine_range _ H4).
    pose proof (le_combine_range _ H5). pose proof (le_combine_range _ H67).
    cbn [length] in *. auto.
  - rewrite object_representation_members.
    cbn [value msgType magicByte checksum].
    pose proof (le_bytes_le_combine _ H03) as E03.
    pose proof (le_bytes_le_combine _ H4) as E4.
    pose proof (le_bytes_le_combine _ H5) as E5.
    pose proof (le_bytes_le_combine _ H67) as E67.
    cbn [length] in E03, E4, E5, E67.
    rewrite E03, E4, E5, E67. reflexivity.
Qed.

Lemma lxor_is_byte (a b : Z) : is_byte a -> is_byte b -> is_byte (Z.lxor a b).
Proof.
  unfold is_byte. intros Ha Hb.
  assert (Hnn : 0 <= Z.lxor a b) by (apply Z.lxor_nonneg; lia).
  assert (Hmod : Z.lxor a b mod 2 ^ 8 = Z.lxor a b).
  { apply Z.bits_inj'; intros n Hn.
    rewrite Z.testbit_mod_pow2 by lia.
    destruct (Z.ltb_spec n 8) as [Hlt | Hge]; cbn [andb]; [reflexivity |].
    rewrite Z.lxor_spec.
    rewrite (testbit_small a 8 n), (testbit_small b 8 n) by lia.
    reflexivity. }
  rewrite <- Hmod. apply Z.mod_pos_bound. lia.
Qed.

(** XORing byte [k] of a byte string with [m] XORs the integer it spells
    with [m] moved up by [k] bytes. *)
Lemma le_combine_xor_nth (bs : list Z) (k : nat) (m : Z) :
  Forall is_byte bs -> is_byte m -> (k < length bs)%nat ->
  le_combine (xor_nth k m bs)
  = Z.lxor (le_combine bs) (m * 2 ^ (8 * Z.of_nat k)).
Proof.
  intros Hbs Hm. revert k.
  induction Hbs as [| b bs Hb _ IH]; intros k Hk; cbn [length] in Hk;
    [lia |].
  destruct k as [| k]; cbn [xor_nth le_combine].
  - change (8 * Z.of_nat 0) with 0. rewrite Z.pow_0_r, Z.mul_1_r.
    apply Z.bits_inj'; intros n Hn.
    rewrite Z.lxor_spec.
    rewrite !testbit_byte_cons by (try apply lxor_is_byte; assumption).
    destruct (Z.ltb_spec n 8) as [Hlt | Hge].
    + apply Z.lxor_spec.
    + rewrite (testbit_small m 8 n) by (unfold is_byte in Hm; lia).
      symmetry. apply xorb_false_r.
  - rewrite IH by lia.
    replace (m * 2 ^ (8 * Z.of_nat (S k)))
      with (0 + 2 ^ 8 * (m * 2 ^ (8 * Z.of_nat k))).
    2:{ replace (8 * Z.of_nat (S k)) with (8 + 8 * Z.of_nat k) by lia.
        rewrite Z.pow_add_r by lia. ring. }
    apply Z.bits_inj'; intros n Hn.
    rewrite Z.lxor_spec.
    rewrite !testbit_byte_cons by (try assumption; unfold is_byte; lia).
    destruct (Z.ltb_spec n 8) as [Hlt | Hge].
    + rewrite Z.testbit_0_l. symmetry. apply xorb_false_r.
    + apply Z.lxor_spec.
Qed.

Ltac decide_ltb :=
  repeat match goal with
         | |- context [?a <? ?b] =>
             first
               [ replace (a <? b) with true by (symmetry; apply Z.ltb_lt; lia)
               | replace (a <? b) with false by (symmetry; apply Z.ltb_ge; lia) ]
         end.

Ltac read_members :=
  rewrite ?le_combine_xor_nth
    by (try apply le_bytes_are_bytes; try assumption; cbn [length le_bytes]; lia);
  rewrite !le_combine_le_bytes;
  change (8 * Z.of_nat 4) with 32; change (8 * Z.of_nat 1) with 8;
  change (8 * Z.of_nat 2) with 16;
  rewrite !Z.mod_small by assumption.

Ltac fold_mask target :=
  match goal with
  | m := 2 ^ _ |- context [?m' * 2 ^ ?e] =>
      constr_eq m m';
      replace (m' * 2 ^ e) with target
        by (subst m; rewrite <- Z.pow_add_r by lia; f_equal; lia)
  end.

(** Flipping bit [i] of the byte image flips one bit of the member that
    the packed layout puts there. *)
Lemma image_bit_flip_member (p : msgpacket) (i : Z) :
  wf_msgpacket p -> 0 <= i < 64 ->
  msgpacket_of_bytes (flip_image_bit i (object_representation p))
  = flip_member_bit (fst (member_of_image_bit i))
      (snd (member_of_image_bit i)) p.
Proof.
  intros (Hv & Ht & Hm & Hc) Hi.
  assert (Hr : 0 <= i mod 8 < 8) by (apply Z.mod_pos_bound; lia).
  assert (Hdm : i = 8 * (i / 8) + i mod 8) by (apply Z.div_mod; lia).
  assert (Hmask : is_byte (2 ^ (i mod 8))).
  { unfold is_byte. split; [apply Z.pow_nonneg; lia |].
    apply Z.pow_lt_mono_r; lia. }
  unfold flip_image_bit, member_of_image_bit.
  assert (Hk : i / 8 = 0 \/ i / 8 = 1 \/ i / 8 = 2 \/ i / 8 = 3
               \/ i / 8 = 4 \/ i / 8 = 5 \/ i / 8 = 6 \/ i / 8 = 7) by lia.
  set (m := 2 ^ (i mod 8)) in *.
  destruct Hk as [Hk | [Hk | [Hk | [Hk | [Hk | [Hk | [Hk | Hk]]]]]]];
    rewrite Hk; decide_ltb; cbn [fst snd flip_member_bit].
  - change (msgpacket_of_bytes (xor_nth (Z.to_nat 0) m (object_representation p)))
      with (mk_msgpacket (le_combine (xor_nth 0 m (le_bytes 4 (value p))))
              (le_combine (le_bytes 1 (msgType p)))
              (le_combine (le_bytes 1 (magicByte p)))
              (le_combine (le_bytes 2 (checksum p)))).
    read_members. fold_mask (2 ^ i). reflexivity.
  - change (msgpacket_of_bytes (xor_nth (Z.to_nat 1) m (object_representation p)))
      with (mk_msgpacket (le_combine (xor_nth 1 m (le_bytes 4 (value p))))
              (le_combine (le_bytes 1 (msgType p)))
              (le_combine (le_bytes 1 (magicByte p)))
              (le_combine (le_bytes 2 (checksum p)))).
    read_members. fold_mask (2 ^ i). reflexivity.
  - change (msgpacket_of_bytes (xor_nth (Z.to_nat 2) m (object_representation p)))
      with (mk_msgpacket (le_combine (xor_nth 2 m (le_bytes 4 (value p))))
              (le_combine (le_bytes 1 (msgType p)))
              (le_combine (le_bytes 1 (magicByte p)))
              (le_combine (le_bytes 2 (checksum p)))).
    read_members. fold_mask (2 ^ i). reflexivity.
  - change (msgpacket_of_bytes (xor_nth (Z.to_nat 3) m (object_representation p)))
      with (mk_msgpacket (le_combine (xor_nth 3 m (le_bytes 4 (value p))))
              (le_combine (le_bytes 1 (msgType p)))
              (le_combine (le_bytes 1 (magicByte p)))
              (le_combine (le_bytes 2 (checksum p)))).
    read_members. fold_mask (2 ^ i). reflexivity.
  - change (msgpacket_of_bytes (xor_nth (Z.to_nat 4) m (object_representation p)))
      with (mk_msgpacket (le_combine (le_bytes 4 (value p)))
              (le_combine (xor_nth 0 m (le_bytes 1 (msgType p))))
              (le_combine (le_bytes 1 (magicByte p)))
              (le_combine (le_bytes 2 (checksum p)))).
    read_members. change (8 * Z.of_nat 0) with 0.
    rewrite Z.pow_0_r, Z.mul_1_r. subst m.
    replace (i - 32) with (i mod 8) by lia. reflexivity.
  - change (msgpacket_of_bytes (xor_nth (Z.to_nat 5) m (object_representation p)))
      with (mk_msgpacket (le_combine (le_bytes 4 (value p)))
              (le_combine (le_bytes 1 (msgType p)))
              (le_combine (xor_nth 0 m (le_bytes 1 (magicByte p))))
              (le_combine (le_bytes 2 (checksum p)))).
    read_members. change (8 * Z.of_nat 0) with 0.
    rewrite Z.pow_0_r, Z.mul_1_r. subst m.
    replace (i - 40) with (i mod 8) by lia. reflexivity.
  - change (msgpacket_of_bytes (xor_nth (Z.to_nat 6) m (object_representation p)))
      with (mk_msgpacket (le_combine (le_bytes 4 (value p)))
              (le_combine (le_bytes 1 (msgType p)))
              (le_combine (le_bytes 1 (magicByte p)))
              (le_combine (xor_nth 0 m (le_bytes 2 (checksum p))))).
    read_members. change (8 * Z.of_nat 0) with 0.
    rewrite Z.pow_0_r, Z.mul_1_r. subst m.
    replace (i - 48) with (i mod 8) by lia. reflexivity.
  - change (msgpacket_of_bytes (xor_nth (Z.to_nat 7) m (object_representation p)))
      with (mk_msgpacket (le_combine (le_bytes 4 (value p)))
              (le_combine (le_bytes 1 (msgType p)))
              (le_combine (le_bytes 1 (magicByte p)))
              (le_combine (xor_nth 1 m (le_bytes 2 (checksum p))))).
    read_members. fold_mask (2 ^ (i - 48)). reflexivity.
Qed.

(** X8: one bit flipped in transit, anywhere in the eight bytes of a
    well-formed packet that passes both checks, is caught by the receiver
    reading the bytes as a packet: a flip in byte 5 (bits 40 to 47, the magic
    byte) fails [magicByteOk] and every other flip fails [checksumIsOk], so
    the two checks together never both pass. *)
Theorem wire_single_bit_error_detected (p : msgpacket) (i : Z) :
  wf_msgpacket p ->
  eval checksumIsOk p = true ->
  eval magicByteOk p = true ->
  0 <= i < 64 ->
  let received :=
    msgpacket_of_bytes (flip_image_bit i (object_representation p)) in
  eval checksumIsOk received = ((40 <=? i) && (i <? 48))
  /\ eval magicByteOk received = negb ((40 <=? i) && (i <? 48))
  /\ eval checksumIsOk received && eval magicByteOk received = false.
Proof.
  intros Hwf Hok Hmagic Hi received. subst received.
  rewrite image_bit_flip_member by assumption.
  assert (Hj : 0 <= snd (member_of_image_bit i)
               < member_bits (fst (member_of_image_bit i))).
  { unfold member_of_image_bit.
    destruct (Z.ltb_spec i 32); [cbn; lia |].
    destruct (Z.ltb_spec i 40); [cbn; lia |].
    destruct (Z.ltb_spec i 48); cbn; lia. }
  destruct (flip_member_bit_checks p _ _ Hj Hok Hmagic) as [Hc Hm].
  rewrite Hc, Hm. clear Hc Hm Hj.
  unfold member_of_image_bit.
  destruct (Z.ltb_spec i 32); [cbn [fst]; decide_ltb;
    replace (40 <=? i) with false by (symmetry; apply Z.leb_gt; lia);
    repeat split |].
  destruct (Z.ltb_spec i 40); [cbn [fst]; decide_ltb;
    replace (40 <=? i) with false by (symmetry; apply Z.leb_gt; lia);
    repeat split |].
  replace (40 <=? i) with true by (symmetry; apply Z.leb_le; lia).
  destruct (Z.ltb_spec i 48); cbn [fst]; repeat split.
Qed.

Lemma wire_single_bit_error_detected_witness :
  wf_msgpacket (exec (createMessage_float f440 DETUNE) (msgpacket_ctor 0 0 0))
  /\ 0 <= 47 < 64
  /\ object_representation
       (exec (createMessage_float f440 DETUNE) (msgpacket_ctor 0 0 0))
     = [0x00; 0x00; 0xDC; 0x43; 0x0A; 0xAA; 0xD6; 0x43]
  /\ eval magicByteOk
       (msgpacket_of_bytes
          (flip_image_bit 47
             (object_representation
                (exec (createMessage_float f440 DETUNE) (msgpacket_ctor 0 0 0)))))
     = false.
Proof.
  assert (Hwf : wf_msgpacket
                  (exec (createMessage_float f440 DETUNE) (msgpacket_ctor 0 0 0)))
    by (apply createMessage_float_wf; reflexivity).
  assert (Hi : 0 <= 47 < 64) by lia.
  split; [exact Hwf |]. split; [exact Hi |]. split; [reflexivity |].
  exact (proj1 (proj2 (wire_single_bit_error_detected _ 47 Hwf eq_refl eq_refl Hi))).
Defined.

(** ** Reading a packet and sending it on *)

(** A 32-bit pattern is its sign bit, exponent field and fraction field
    put together. *)
Lemma join_bits32_fields (b : Z) :
  0 <= b < 2 ^ 32 ->
  join_bits32 (Z.testbit b 31) (Z.land (Z.shiftr b 23) 0xFF)
    (Z.land b 0x7FFFFF) = b.
Proof.
  intros Hb.
  change 0xFF with (Z.ones 8). change 0x7FFFFF with (Z.ones 23).
  rewrite !Z.land_ones by lia.
  apply Z.bits_inj'; intros n Hn.
  rewrite join_bits32_testbit by exact Hn.
  rewrite (Z.testbit_mod_pow2 b 23 n) by lia.
  destruct (Z.ltb_spec n 23) as [Hlow | Hhigh]; cbn [andb].
  - rewrite (Z.testbit_neg_r _ (n - 23)) by lia.
    replace (n =? 31) with false by (symmetry; apply Z.eqb_neq; lia).
    rewrite andb_false_r. reflexivity.
  - rewrite Z.testbit_mod_pow2, Z.shiftr_spec by lia.
    replace (n - 23 + 23) with n by lia.
    rewrite orb_false_r.
    destruct (Z.eqb_spec n 31) as [-> | Hne].
    + cbn. rewrite andb_true_r, orb_false_r. reflexivity.
    + rewrite andb_false_r. cbn [orb].
      destruct (Z.ltb_spec (n - 23) 8) as [Hexp | Habove]; cbn [andb];
        [reflexivity |].
      symmetry. apply (testbit_small b 32); lia.
Qed.

(** Unless the pattern is a NaN, storing the float read from it gives the
    pattern back. *)
Lemma bits_of_float_of_bits (b : Z) :
  0 <= b < 2 ^ 32 ->
  float_of_bits b <> S754_nan ->
  bits_of_float (float_of_bits b) = b.
Proof.
  intros Hb Hnan.
  pose proof (join_bits32_fields b Hb) as Hjoin.
  unfold float_of_bits in *.
  assert (HE : 0 <= Z.land (Z.shiftr b 23) 0xFF < 2 ^ 8).
  { change 0xFF with (Z.ones 8). rewrite Z.land_ones by lia.
    apply Z.mod_pos_bound. lia. }
  assert (HM : 0 <= Z.land b 0x7FFFFF < 2 ^ 23).
  { change 0x7FFFFF with (Z.ones 23). rewrite Z.land_ones by lia.
    apply Z.mod_pos_bound. lia. }
  set (sg := Z.testbit b 31) in *.
  set (E := Z.land (Z.shiftr b 23) 0xFF) in *.
  set (M := Z.land b 0x7FFFFF) in *.
  cbv zeta in *.
  destruct (Z.eqb_spec E 0) as [HE0 | HE0].
  - rewrite HE0 in Hjoin.
    destruct M as [| m | m] eqn:HMeq; cbn [bits_of_float].
    + exact Hjoin.
    + replace (2 ^ 23 <=? Z.pos m) with false
        by (symmetry; apply Z.leb_gt; lia).
      exact Hjoin.
    + lia.
  - destruct (Z.eqb_spec E 255) as [HE255 | HE255].
    + destruct (Z.eqb_spec M 0) as [HM0 | HM0]; [| congruence].
      cbn [bits_of_float]. rewrite HE255, HM0 in Hjoin. exact Hjoin.
    + destruct (M + 2 ^ 23) as [| m | m] eqn:Hm; try lia.
      cbn [bits_of_float].
      replace (2 ^ 23 <=? Z.pos m) with true
        by (symmetry; apply Z.leb_le; lia).
      replace (E - 150 + 150) with E by lia.
      replace (Z.pos m - 2 ^ 23) with M by lia.
      exact Hjoin.
Qed.

(** X9: a receiver that reads the unsigned value of a packet whose value
    fits the 4-byte slot and which passes [checksumIsOk], and fills the same
    storage again with that value and the packet's kind, gets the identical
    packet. *)
Theorem relay_unsigned_reproduces_packet (p : msgpacket) (k : messageTypes) :
  0 <= value p < 2 ^ 32 ->
  msgType p = ordinal k ->
  eval checksumIsOk p = true ->
  exec (createMessage_size_t (eval load_uintValue p) k) p = p.
Proof.
  intros Hv Hk Hok.
  rewrite createMessage_size_t_exec.
  rewrite checksumIsOk_eval in Hok. apply Z.eqb_eq in Hok.
  unfold eval, load_uintValue; cbn [fst].
  unfold to_uint32. rewrite Z.mod_small by exact Hv.
  rewrite <- Hk, <- Hok. destruct p. reflexivity.
Qed.

Lemma relay_unsigned_reproduces_packet_witness :
  exec (createMessage_size_t
          (eval load_uintValue
             (exec (createMessage_size_t 0xDEADBEEF CTRL3) (msgpacket_ctor 1 2 3)))
          CTRL3)
    (exec (createMessage_size_t 0xDEADBEEF CTRL3) (msgpacket_ctor 1 2 3))
  = mk_msgpacket 0xDEADBEEF 7 0xAA 0x6045.
Proof.
  assert (Hv : 0 <= 0xDEADBEEF < 2 ^ 32) by lia.
  exact (relay_unsigned_reproduces_packet
           (exec (createMessage_size_t 0xDEADBEEF CTRL3) (msgpacket_ctor 1 2 3))
           CTRL3 Hv eq_refl eq_refl).
Defined.

(** X10: the same through the float view: unless the value bits are a NaN
    pattern, reading the float of a packet whose value fits the 4-byte slot
    and which passes [checksumIsOk], and filling the storage again with that
    float and the packet's kind, gives the identical packet. *)
Theorem relay_float_reproduces_packet (p : msgpacket) (k : messageTypes) :
  0 <= value p < 2 ^ 32 ->
  eval load_floatValue p <> S754_nan ->
  msgType p = ordinal k ->
  eval checksumIsOk p = true ->
  exec (createMessage_float (eval load_floatValue p) k) p = p.
Proof.
  intros Hv Hnan Hk Hok.
  rewrite createMessage_float_exec.
  rewrite checksumIsOk_eval in Hok. apply Z.eqb_eq in Hok.
  unfold eval, load_floatValue in *; cbn [fst] in *.
  rewrite bits_of_float_of_bits by assumption.
  rewrite <- Hk, <- Hok. destruct p. reflexivity.
Qed.

Lemma relay_float_reproduces_packet_witness :
  eval load_floatValue
    (exec (createMessage_float f440 DETUNE) (msgpacket_ctor 0 0 0)) = f440
  /\ exec (createMessage_float
             (eval load_floatValue
                (exec (createMessage_float f440 DETUNE) (msgpacket_ctor 0 0 0)))
             DETUNE)
       (exec (createMessage_float f440 DETUNE) (msgpacket_ctor 0 0 0))
     = mk_msgpacket 0x43DC0000 10 0xAA 0x43D6.
Proof.
  split; [reflexivity |].
  assert (Hv : 0 <= 0x43DC0000 < 2 ^ 32) by lia.
  assert (Hnan : eval load_floatValue
                   (exec (createMessage_float f440 DETUNE) (msgpacket_ctor 0 0 0))
                 <> S754_nan) by discriminate.
  exact (relay_float_reproduces_packet
           (exec (createMessage_float f440 DETUNE) (msgpacket_ctor 0 0 0))
           DETUNE Hv Hnan eq_refl eq_refl).
Defined.

Lemma byte_image_round_trip_witness :
  msgpacket_of_bytes [0x00; 0x00; 0xDC; 0x43; 0x0A; 0xAA; 0xD6; 0x43]
  = exec (createMessage_float f440 DETUNE) (msgpacket_ctor 0 0 0)
  /\ object_representation
       (msgpacket_of_bytes [0xEF; 0xBE; 0xAD; 0xDE; 0x07; 0x55; 0x45; 0x60])
     = [0xEF; 0xBE; 0xAD; 0xDE; 0x07; 0x55; 0x45; 0x60].
Proof.
  assert (Hwf : wf_msgpacket
                  (exec (createMessage_float f440 DETUNE) (msgpacket_ctor 0 0 0)))
    by (apply createMessage_float_wf; reflexivity).
  assert (Hbs : Forall is_byte
                  [0xEF; 0xBE; 0xAD; 0xDE; 0x07; 0x55; 0x45; 0x60])
    by (repeat (apply Forall_cons; [unfold is_byte; lia |]); apply Forall_nil).
  destruct (byte_image_round_trip
              (exec (createMessage_float f440 DETUNE) (msgpacket_ctor 0 0 0))
              [0xEF; 0xBE; 0xAD; 0xDE; 0x07; 0x55; 0x45; 0x60]
              Hwf eq_refl Hbs) as (_ & Hp & _ & Hb).
  split; [exact Hp | exact Hb].
Defined.

(** ** Errors of two bits *)

(** Flipping value bit [i] flips bit [i mod 16] of the fold, and flipping
    a kind bit flips the same bit of the fold. *)
Lemma fold16_flip_value (v t i : Z) :
  0 <= i < 32 ->
  fold16 (Z.lxor v (2 ^ i)) t = Z.lxor (fold16 v t) (2 ^ (i mod 16)).
Proof.
  intros Hi. apply Z.bits_inj'; intros n Hn.
  assert (Hr : 0 <= i mod 16 < 16) by (apply Z.mod_pos_bound; lia).
  assert (Hdm : i = 16 * (i / 16) + i mod 16) by (apply Z.div_mod; lia).
  rewrite Z.lxor_spec, !fold16_testbit, !Z.lxor_spec by exact Hn.
  rewrite !Z.pow2_bits_eqb by lia.
  destruct (Z.ltb_spec n 16) as [Hlt | Hge]; cbn [andb].
  - destruct (Z.eqb_spec i n), (Z.eqb_spec i (n + 16)),
      (Z.eqb_spec (i mod 16) n); try lia;
      destruct (Z.testbit v n), (Z.testbit v (n + 16)), (Z.testbit t n);
      reflexivity.
  - destruct (Z.eqb_spec (i mod 16) n); [lia | reflexivity].
Qed.

Lemma fold16_flip_kind (v t j : Z) :
  0 <= j < 16 ->
  fold16 v (Z.lxor t (2 ^ j)) = Z.lxor (fold16 v t) (2 ^ j).
Proof.
  intros Hj. apply Z.bits_inj'; intros n Hn.
  rewrite Z.lxor_spec, !fold16_testbit, !Z.lxor_spec by exact Hn.
  rewrite !Z.pow2_bits_eqb by lia.
  destruct (Z.ltb_spec n 16) as [Hlt | Hge]; cbn [andb].
  - destruct (Z.testbit v n), (Z.testbit v (n + 16)), (Z.testbit t n),
      (j =? n); reflexivity.
  - destruct (Z.eqb_spec j n); [lia | reflexivity].
Qed.

Lemma lxor_pow2_twice (a j : Z) : Z.lxor (Z.lxor a (2 ^ j)) (2 ^ j) = a.
Proof. rewrite Z.lxor_assoc, Z.lxor_nilpotent. apply Z.lxor_0_r. Qed.

(** X11: the checksum does not catch every error of two bits.  On a
    packet that passes [checksumIsOk], flipping bit [j] of msgType together
    with bit [j] or bit [j + 16] of the value, or bit [j] of the stored
    checksum together with bit [j] of the value or of msgType, or bits [j]
    and [j + 16] of the value, gives a packet that still passes. *)
Theorem double_bit_error_undetected (p : msgpacket) (j : Z) :
  0 <= j < 8 ->
  eval checksumIsOk p = true ->
  eval checksumIsOk (flip_member_bit m_msgType j (flip_member_bit m_value j p))
  = true
  /\ eval checksumIsOk
       (flip_member_bit m_msgType j (flip_member_bit m_value (j + 16) p))
     = true
  /\ eval checksumIsOk
       (flip_member_bit m_checksum j (flip_member_bit m_value j p))
     = true
  /\ eval checksumIsOk
       (flip_member_bit m_checksum j (flip_member_bit m_msgType j p))
     = true
  /\ eval checksumIsOk
       (flip_member_bit m_value (j + 16) (flip_member_bit m_value j p))
     = true.
Proof.
  intros Hj Hok.
  rewrite !checksumIsOk_eval in *. apply Z.eqb_eq in Hok.
  cbn [flip_member_bit value msgType magicByte checksum].
  assert (Hlow : j mod 16 = j) by (apply Z.mod_small; lia).
  assert (Hhigh : (j + 16) mod 16 = j).
  { replace (j + 16) with (j + 1 * 16) by lia.
    rewrite Z.mod_add by lia. exact Hlow. }
  rewrite !Z.eqb_eq.
  rewrite ?fold16_flip_kind, ?fold16_flip_value by lia.
  rewrite ?fold16_flip_value by lia.
  rewrite Hlow, Hhigh, !lxor_pow2_twice, <- Hok.
  repeat split.
Qed.

Lemma double_bit_error_undetected_witness :
  0 <= 3 < 8
  /\ flip_member_bit m_msgType 3
       (flip_member_bit m_value 3
          (exec (createMessage_size_t 0x12345678 BANK1) (msgpacket_ctor 0 0 0)))
     = mk_msgpacket 0x12345670 10 0xAA 0x444E
  /\ eval checksumIsOk (mk_msgpacket 0x12345670 10 0xAA 0x444E) = true.
Proof.
  assert (Hj : 0 <= 3 < 8) by lia.
  split; [exact Hj |]. split; [reflexivity |].
  exact (proj1 (double_bit_error_undetected
                  (exec (createMessage_size_t 0x12345678 BANK1)
                     (msgpacket_ctor 0 0 0)) 3 Hj eq_refl)).
Defined.

(** ** Other platforms, other floats *)

(** X12: the static assertion on the packet size holds exactly on
    platforms whose [size_t] is at most 4 bytes wide; with a wider [size_t]
    the union grows, the packet is [size_t] plus 4 bytes long and the header
    is rejected, as with the 8-byte [size_t] of a 64-bit host. *)
Theorem static_assert_needs_narrow_size_t (w : Z) :
  (static_assert_msgpacket_size_on w = true <-> w <= 4)
  /\ sizeof_packed_on w msgpacket_members = Z.max 4 w + 4
  /\ packed_layout_on w msgpacket_members 0
     = [("value"%string, 0, Z.max 4 w);
        ("msgType"%string, Z.max 4 w, 1);
        ("magicByte"%string, Z.max 4 w + 1, 1);
        ("checksum"%string, Z.max 4 w + 1 + 1, 2)]
  /\ sizeof_packed_on 8 msgpacket_members = 12
  /\ static_assert_msgpacket_size_on 8 = false.
Proof.
  split; [apply static_assert_pins_size_t |].
  unfold sizeof_packed_on, msgpacket_members.
  cbn [fold_right snd sizeof_member_on sizeof_on packed_layout_on].
  split; [lia |].
  split; [| split; reflexivity].
  replace (Z.max 4 (Z.max w 0)) with (Z.max 4 w) by lia.
  replace (0 + Z.max 4 w) with (Z.max 4 w) by lia.
  reflexivity.
Qed.



End streamMessaging.
